(** * Canonical feature names of libvmaf: [libvmaf/src/feature/feature_name.c]

    A shallow embedding of the naming functions of [feature_name.c] and the
    properties of the canonical names they build.

    Conventions of the embedding.
    - A C string ([char *] to NUL-terminated data) is the [string] of its
      characters before the terminator; a [char *] that may be [NULL] is an
      [option string].
    - [size_t] and [unsigned] values are [Z] with the wrap-around written
      out ([size_sub]).
    - A [double] is its IEEE-754 binary64 bit pattern, a 64-bit [Z].
    - The caller's output buffer of [vmaf_feature_name] is the list of its
      bytes; a write past its end is undefined behaviour and yields [None].
    - Memory allocation and the dictionary store are external: they are
      fields of the class [Externals] and act on an abstract [World]. *)

From Stdlib Require Import ZArith List String Ascii Bool Lia Permutation.
Import ListNotations.

Open Scope string_scope.
Open Scope Z_scope.

(** ** Strings *)

(** The first [n] characters of [s]: all of [s] when it is shorter, none
    when [n] is not positive. *)
Fixpoint str_take (n : Z) (s : string) : string :=
  match s with
  | EmptyString => EmptyString
  | String c s' => if n <=? 0 then EmptyString else String c (str_take (n - 1) s')
  end.

(** [strlen] as a [size_t]. *)
Definition strlen (s : string) : Z := Z.of_nat (String.length s).
Arguments strlen : simpl never.

(** [!strcmp(a, b)]. *)
Definition streq (a b : string) : bool := String.eqb a b.

(** ** Machine integers *)

Definition SIZE_MODULUS : Z := 2 ^ 64.

(** [a - b] on [size_t]. *)
Definition size_sub (a b : Z) : Z := (a - b) mod SIZE_MODULUS.

(** [EINVAL] of [<errno.h>]. *)
Definition EINVAL : Z := 22.

(** ** Conversions of [printf] *)

Definition digit_char (d : Z) : ascii := ascii_of_nat (48 + Z.to_nat d).

(** Decimal digits of a natural number, most significant first. *)
Fixpoint digits_fuel (fuel : nat) (n : Z) (acc : string) : string :=
  match fuel with
  | O => acc
  | S f =>
      let acc' := String (digit_char (n mod 10)) acc in
      if n / 10 =? 0 then acc' else digits_fuel f (n / 10) acc'
  end.

Definition string_of_nonneg (n : Z) : string :=
  digits_fuel (S (Z.to_nat (Z.log2 n))) n EmptyString.

(** ["%d"]. *)
Definition fmt_d (n : Z) : string :=
  if n <? 0 then "-" ++ string_of_nonneg (- n) else string_of_nonneg n.

(** *** Doubles *)

Definition double := Z.

Definition double_bits (d : double) : Z := d mod 2 ^ 64.
Definition double_sign (d : double) : bool := Z.testbit (double_bits d) 63.
Definition double_exp (d : double) : Z := Z.land (Z.shiftr (double_bits d) 52) 2047.
Definition double_frac (d : double) : Z := Z.land (double_bits d) (2 ^ 52 - 1).

Definition double_is_nan (d : double) : bool :=
  (double_exp d =? 2047) && negb (double_frac d =? 0).
Definition double_is_inf (d : double) : bool :=
  (double_exp d =? 2047) && (double_frac d =? 0).
Definition double_is_zero (d : double) : bool :=
  (double_exp d =? 0) && (double_frac d =? 0).

(** [a == b] on doubles: a NaN equals nothing, the two zeros are equal,
    every other value equals exactly itself. *)
Definition double_eq (a b : double) : bool :=
  negb (double_is_nan a) && negb (double_is_nan b) &&
  ((double_bits a =? double_bits b) || (double_is_zero a && double_is_zero b)).

(** A finite double is [m * 2^e]. *)
Definition double_mantissa (d : double) : Z :=
  if double_exp d =? 0 then double_frac d else 2 ^ 52 + double_frac d.
Definition double_exponent (d : double) : Z :=
  if double_exp d =? 0 then -1074 else double_exp d - 1075.

(** Brings [num / den] into [1 <= num / den < 10], counting the decimal
    exponent. *)
Fixpoint scale10 (fuel : nat) (num den k : Z) : Z * Z * Z :=
  match fuel with
  | O => (num, den, k)
  | S f =>
      if 10 * den <=? num then scale10 f num (10 * den) (k + 1)
      else if num <? den then scale10 f (10 * num) den (k - 1)
      else (num, den, k)
  end.

(** Nearest integer to [num / den], ties to even. *)
Definition round_half_even (num den : Z) : Z :=
  let q := num / den in
  let r := num mod den in
  match 2 * r ?= den with
  | Lt => q
  | Gt => q + 1
  | Eq => if Z.even q then q else q + 1
  end.

(** Removes the trailing ['0'] characters of a digit string. *)
Fixpoint strip_zeros (s : string) : string :=
  match s with
  | EmptyString => EmptyString
  | String c s' =>
      match strip_zeros s' with
      | EmptyString => if Ascii.eqb c "0" then EmptyString else String c EmptyString
      | t => String c t
      end
  end.

Fixpoint zeros (n : nat) : string :=
  match n with
  | O => EmptyString
  | S n' => String "0" (zeros n')
  end.

Definition with_point (int_part frac_part : string) : string :=
  match strip_zeros frac_part with
  | EmptyString => int_part
  | f => int_part ++ "." ++ f
  end.

Definition fmt_exp (x : Z) : string :=
  let a := Z.abs x in
  (if x <? 0 then "e-" else "e+") ++
  (if a <? 10 then "0" else "") ++ string_of_nonneg a.

(** ["%g"] of a finite non-zero magnitude [num / den]: six significant
    digits, style [e] when the decimal exponent is below [-4] or at least
    [6], style [f] otherwise, trailing zeros removed. *)
Definition fmt_g_magnitude (num den : Z) : string :=
  let '(n1, d1, k) := scale10 700 num den 0 in
  let r := round_half_even (n1 * 10 ^ 5) d1 in
  let '(n, x) := if r =? 10 ^ 6 then (10 ^ 5, k + 1) else (r, k) in
  let ds := string_of_nonneg n in
  if (x <? -4) || (6 <=? x) then
    with_point (str_take 1 ds) (String.substring 1 5 ds) ++ fmt_exp x
  else if 0 <=? x then
    with_point (str_take (x + 1) ds)
               (String.substring (Z.to_nat (x + 1)) (Z.to_nat (5 - x)) ds)
  else
    with_point "0" (zeros (Z.to_nat (- x - 1)) ++ ds).

(** ["%g"]. *)
Definition fmt_g (d : double) : string :=
  (if double_sign d then "-" else "") ++
  (if double_is_nan d then "nan"
   else if double_is_inf d then "inf"
   else if double_is_zero d then "0"
   else
     let m := double_mantissa d in
     let e := double_exponent d in
     if 0 <=? e then fmt_g_magnitude (m * 2 ^ e) 1
     else fmt_g_magnitude m (2 ^ (- e))).

(** ** Data model *)

(** [typedef struct { const char *name, *alias; } Alias;] *)
Record Alias := { Alias_name : string; Alias_alias : string }.

(** [enum VmafOptionType] of [opt.h]; [VMAF_OPT_TYPE_other] stands for every
    value that reaches the [default:] branch of a [switch]. *)
Inductive VmafOptionType :=
| VMAF_OPT_TYPE_BOOL
| VMAF_OPT_TYPE_INT
| VMAF_OPT_TYPE_DOUBLE
| VMAF_OPT_TYPE_other.

(** The union [default_val] of a [VmafOption], seen through its three
    members [b], [i] and [d]: the code reads the member that [type] names. *)
Record VmafOptionValue := { val_b : bool; val_i : Z; val_d : double }.

(** The fields of [VmafOption] ([opt.h]) that [feature_name.c] reads. The
    array of options ends with an entry whose [name] is [NULL]. *)
Record VmafOption := {
  name : option string;
  alias : option string;
  type : VmafOptionType;
  default_val : VmafOptionValue;
  offset : Z;
  flags : Z
}.

(** [VmafDictionaryEntry] and [VmafDictionary] of [dict.h]: [entry] holds the
    [cnt] entries in use. *)
Record VmafDictionaryEntry := { key : string; val : string }.
Record VmafDictionary := { entry : list VmafDictionaryEntry }.
Definition cnt (d : VmafDictionary) : Z := Z.of_nat (List.length (entry d)).

(** The configuration object [obj]: the byte found at each offset from its
    start. *)
Definition Memory := Z -> Z.

Definition load_u8 (data : Memory) (k : Z) : Z := data k mod 256.

(** The [bool] that [data] points to. *)
Definition load_bool (data : Memory) : bool := negb (load_u8 data 0 =? 0).

(** The [int] that [data] points to: four bytes, little-endian, two's
    complement. *)
Definition load_int (data : Memory) : Z :=
  let u := load_u8 data 0 + Z.shiftl (load_u8 data 1) 8 +
           Z.shiftl (load_u8 data 2) 16 + Z.shiftl (load_u8 data 3) 24 in
  if u <? 2 ^ 31 then u else u - 2 ^ 32.

(** The [double] that [data] points to: eight bytes, little-endian. *)
Definition load_double (data : Memory) : double :=
  load_u8 data 0 + Z.shiftl (load_u8 data 1) 8 +
  Z.shiftl (load_u8 data 2) 16 + Z.shiftl (load_u8 data 3) 24 +
  Z.shiftl (load_u8 data 4) 32 + Z.shiftl (load_u8 data 5) 40 +
  Z.shiftl (load_u8 data 6) 48 + Z.shiftl (load_u8 data 7) 56.

(** The address [off] bytes after [obj]. *)
Definition mem_at (obj : Memory) (off : Z) : Memory := fun k => obj (off + k).

(** What [feature_name.c] takes from the rest of libvmaf and from the C
    library: the name-alias lookup of [alias.h], the constants of
    [feature_name.h] and [opt.h], the allocator and the dictionary of
    [dict.h]. Allocation and the dictionary act on a [World]; an error code
    is [0] on success. *)
Class Externals := {
  World : Type;
  vmaf_feature_name_alias : string -> string;
  VMAF_FEATURE_NAME_DEFAULT_BUFFER_SIZE : Z;
  VMAF_OPT_FLAG_FEATURE_PARAM : Z;
  malloc : Z -> World -> bool * World;
  free : World -> World;
  vmaf_dictionary_set :
    option VmafDictionary -> string -> string -> Z -> World ->
    Z * option VmafDictionary * World;
  vmaf_dictionary_free : option VmafDictionary -> World -> World
}.

(** ** The alias table *)

Definition alias_list : list Alias :=
  [ {| Alias_name := "motion_force_zero"; Alias_alias := "force" |};
    {| Alias_name := "adm_enhn_gain_limit"; Alias_alias := "egl" |};
    {| Alias_name := "vif_enhn_gain_limit"; Alias_alias := "egl" |};
    {| Alias_name := "adm_norm_view_dist"; Alias_alias := "nvd" |};
    {| Alias_name := "adm_ref_display_height"; Alias_alias := "rdh" |} ].

Fixpoint key_alias_from (l : list Alias) (k : string) : option string :=
  match l with
  | [] => None
  | a :: l' => if streq k (Alias_name a) then Some (Alias_alias a)
               else key_alias_from l' k
  end.

Definition key_alias (k : string) : option string := key_alias_from alias_list k.

(** ** Buffers *)

Definition NUL : ascii := Ascii.zero.

(** [memset(buf, c, n)] on the bytes of a buffer. *)
Definition memset (buf : list ascii) (c : ascii) (n : Z) : option (list ascii) :=
  if n <=? Z.of_nat (List.length buf)
  then Some (repeat c (Z.to_nat n) ++ skipn (Z.to_nat n) buf)%list
  else None.

(** [snprintf(buf, n, ...)] as ISO C defines it, the conversions producing
    [s]: nothing is written when [n] is [0], otherwise the first [n - 1]
    characters of [s] and a terminator. *)
Definition snprintf (buf : list ascii) (n : Z) (s : string) : option (list ascii) :=
  if n =? 0 then Some buf
  else
    let out := (list_ascii_of_string (str_take (n - 1) s) ++ [NUL])%list in
    if (List.length out <=? List.length buf)%nat
    then Some (out ++ skipn (List.length out) buf)%list
    else None.

(** The C string found at the start of a buffer. *)
Fixpoint c_string (buf : list ascii) : string :=
  match buf with
  | [] => EmptyString
  | c :: rest => if Ascii.eqb c NUL then EmptyString else String c (c_string rest)
  end.

(** A string that holds no NUL character, as every C string does. *)
Fixpoint nul_free (s : string) : bool :=
  match s with
  | EmptyString => true
  | String c s' => negb (Ascii.eqb c NUL) && nul_free s'
  end.

(** A local [char] array that always holds a terminated string is the
    [string] it holds. [strnlen(buf, n)]: *)
Definition strnlen (buf : string) (n : Z) : Z := Z.min (strlen buf) n.

(** [vsnprintf(buf + off, size, ...)] on such an array, [off] being within
    the string it holds. *)
Definition vsnprintf_at (buf : string) (off size : Z) (s : string) : string :=
  if size =? 0 then buf
  else str_take off buf ++ str_take (size - 1) s.

(** [snprintfcat(buf, buf_sz, fmt, ...)], the conversions producing [s]; its
    return value is discarded at every call. *)
Definition snprintfcat (buf : string) (buf_sz : Z) (s : string) : string :=
  let len := strnlen buf buf_sz in
  vsnprintf_at buf len (size_sub buf_sz len) s.

(** [strncpy(dst, buf, n)] into a fresh [dst]. *)
Definition strncpy (buf : string) (n : Z) : string := str_take n buf.

(** ** The functions of [feature_name.c] *)

(** The pointer [vmaf_feature_name] returns is [name] or [buf]. *)
Inductive name_or_buf := Ret_name | Ret_buf.

Section Functions.
Context {E : Externals}.

Definition vmaf_feature_name (name : string) (key : option string) (val : double)
    (buf : list ascii) (buf_sz : Z) : option (name_or_buf * list ascii) :=
  match key with
  | None => Some (Ret_name, buf)
  | Some k =>
      match key_alias k with
      | None => Some (Ret_name, buf)
      | Some ka =>
          match memset buf NUL buf_sz with
          | None => None
          | Some buf0 =>
              match snprintf buf0 (size_sub buf_sz 1)
                      (vmaf_feature_name_alias name ++ "_" ++ ka ++ "_" ++ fmt_g val) with
              | None => None
              | Some buf1 => Some (Ret_buf, buf1)
              end
          end
      end
  end.

(** [opt->flags & VMAF_OPT_FLAG_FEATURE_PARAM]. *)
Definition feature_param (opt : VmafOption) : bool :=
  negb (Z.land (flags opt) VMAF_OPT_FLAG_FEATURE_PARAM =? 0).

(** The loop over [j] of [vmaf_feature_name_from_opts_dict]. *)
Fixpoint append_entries (opt : VmafOption) (opt_name : string)
    (entries : list VmafDictionaryEntry) (buf_sz : Z) (buf : string) : string :=
  match entries with
  | [] => buf
  | e :: rest =>
      if negb (streq opt_name (key e)) then append_entries opt opt_name rest buf_sz buf
      else if negb (feature_param opt) then append_entries opt opt_name rest buf_sz buf
      else
        let k := match alias opt with Some a => a | None => opt_name end in
        let v := val e in
        append_entries opt opt_name rest buf_sz
          (snprintfcat buf buf_sz ("_" ++ k ++ "_" ++ v))
  end.

(** The loop over [i]: it stops at the entry without a name. *)
Fixpoint append_options (opts : list VmafOption) (opts_dict : VmafDictionary)
    (buf_sz : Z) (buf : string) : string :=
  match opts with
  | [] => buf
  | opt :: rest =>
      match name opt with
      | None => buf
      | Some n =>
          append_options rest opts_dict buf_sz
            (append_entries opt n (entry opts_dict) buf_sz buf)
      end
  end.

Definition vmaf_feature_name_from_opts_dict (name : string)
    (opts : option (list VmafOption)) (opts_dict : option VmafDictionary)
    (w : World) : option string * World :=
  let buf_sz := VMAF_FEATURE_NAME_DEFAULT_BUFFER_SIZE in
  let buf := EmptyString in
  let buf :=
    match opts, opts_dict with
    | Some os, Some d =>
        append_options os d buf_sz
          (snprintfcat buf buf_sz (vmaf_feature_name_alias name))
    | _, _ => snprintfcat buf buf_sz name
    end in
  let dst_sz := (strnlen buf buf_sz + 1) mod SIZE_MODULUS in
  let '(dst, w') := malloc dst_sz w in
  if negb dst then (None, w')
  else (Some (strncpy buf dst_sz), w').

Definition int_of_bool (b : bool) : Z := if b then 1 else 0.

Definition option_is_default (opt : option VmafOption) (data : option Memory) : Z :=
  match opt, data with
  | None, _ => - EINVAL
  | _, None => - EINVAL
  | Some o, Some m =>
      match type o with
      | VMAF_OPT_TYPE_BOOL => int_of_bool (Bool.eqb (val_b (default_val o)) (load_bool m))
      | VMAF_OPT_TYPE_INT => int_of_bool (val_i (default_val o) =? load_int m)
      | VMAF_OPT_TYPE_DOUBLE => int_of_bool (double_eq (val_d (default_val o)) (load_double m))
      | VMAF_OPT_TYPE_other => - EINVAL
      end
  end.

(** The text [vmaf_feature_name_from_options] hands to the dictionary for a
    non-default option: [snprintf] into a zeroed local array. *)
Definition option_value_text (opt : VmafOption) (data : Memory) : string :=
  let buf_sz := VMAF_FEATURE_NAME_DEFAULT_BUFFER_SIZE in
  let buf := EmptyString in
  match type opt with
  | VMAF_OPT_TYPE_BOOL => vsnprintf_at buf 0 buf_sz (fmt_d (int_of_bool (load_bool data)))
  | VMAF_OPT_TYPE_INT => vsnprintf_at buf 0 buf_sz (fmt_d (load_int data))
  | VMAF_OPT_TYPE_DOUBLE => vsnprintf_at buf 0 buf_sz (fmt_g (load_double data))
  | VMAF_OPT_TYPE_other => buf
  end.

(** The loop of [vmaf_feature_name_from_options]: the error code of the
    insertion that made it leave ([0] when none did), the dictionary and the
    world it leaves. *)
Fixpoint scan_options (opts : list VmafOption) (obj : Memory)
    (opts_dict : option VmafDictionary) (w : World)
    : Z * option VmafDictionary * World :=
  match opts with
  | [] => (0, opts_dict, w)
  | opt :: rest =>
      match name opt with
      | None => (0, opts_dict, w)
      | Some n =>
          if negb (feature_param opt) then scan_options rest obj opts_dict w
          else
            let data := mem_at obj (offset opt) in
            if negb (option_is_default (Some opt) (Some data) =? 0)
            then scan_options rest obj opts_dict w
            else
              let buf := option_value_text opt data in
              let '(err, opts_dict', w') := vmaf_dictionary_set opts_dict n buf 0 w in
              if negb (err =? 0) then (err, opts_dict', w')
              else scan_options rest obj opts_dict' w'
      end
  end.

Definition vmaf_feature_name_from_options (name : option string)
    (opts : option (list VmafOption)) (obj : option Memory) (w : World)
    : option string * World :=
  match name, opts, obj with
  | None, _, _ => (None, w)
  | _, None, _ => (None, w)
  | _, _, None => (None, w)
  | Some nm, Some os, Some ob =>
      let '(err, opts_dict, w1) := scan_options os ob None w in
      if negb (err =? 0) then (None, vmaf_dictionary_free opts_dict w1)
      else
        let '(output, w2) := vmaf_feature_name_from_opts_dict nm (Some os) opts_dict w1 in
        (output, vmaf_dictionary_free opts_dict w2)
  end.

(** What [vmaf_feature_name_dict_from_provided_features] returns in its
    pointer: a dictionary (or [NULL]), or an integer converted to a
    pointer. *)
Inductive dict_pointer :=
| Dict_ptr (d : option VmafDictionary)
| Int_as_ptr (z : Z).

(** The loop of [vmaf_feature_name_dict_from_provided_features] over the
    names before the terminating [NULL], from the dictionary [dict]. *)
Fixpoint provided_features_loop (provided_features : list string)
    (opts : option (list VmafOption)) (obj : option Memory)
    (dict : option VmafDictionary) (w : World) : dict_pointer * World :=
  match provided_features with
  | [] => (Dict_ptr dict, w)
  | feature_name :: rest =>
      let '(fn, w1) := vmaf_feature_name_from_options (Some feature_name) opts obj w in
      match fn with
      | None => (Int_as_ptr (- EINVAL), vmaf_dictionary_free dict w1)
      | Some s =>
          let '(err, dict', w2) := vmaf_dictionary_set dict feature_name s 0 w1 in
          let w3 := free w2 in
          if negb (err =? 0) then (Int_as_ptr (- EINVAL), vmaf_dictionary_free dict' w3)
          else provided_features_loop rest opts obj dict' w3
      end
  end.

Definition vmaf_feature_name_dict_from_provided_features
    (provided_features : list string) (opts : option (list VmafOption))
    (obj : option Memory) (w : World) : dict_pointer * World :=
  provided_features_loop provided_features opts obj None w.

End Functions.

(** ** Concrete collaborators *)

(** Modelled from the spec: the name-alias collaborator ([alias.h]),
    "resolving a metric's own base name to its preferred display alias".
    One metric has a short alias, every other name is its own alias. *)
Definition sample_feature_name_alias (s : string) : string :=
  if streq s "VMAF_integer_feature_adm2_score" then "integer_adm2" else s.

Definition entries_of (d : option VmafDictionary) : list VmafDictionaryEntry :=
  match d with
  | None => []
  | Some d' => entry d'
  end.

Fixpoint has_key (k : string) (l : list VmafDictionaryEntry) : bool :=
  match l with
  | [] => false
  | e :: l' => streq k (key e) || has_key k l'
  end.

Fixpoint overwrite (k v : string) (l : list VmafDictionaryEntry)
    : list VmafDictionaryEntry :=
  match l with
  | [] => []
  | e :: l' =>
      if streq k (key e) then {| key := k; val := v |} :: l'
      else e :: overwrite k v l'
  end.

(** Modelled from the spec: the key/value store collaborator ([dict.h]), "an
    ordered string-keyed store" with unique keys: setting a key that is
    present replaces its value, a new key is added at the end. *)
Definition dictionary_insert (d : option VmafDictionary) (k v : string)
    : VmafDictionary :=
  let l := entries_of d in
  {| entry := if has_key k l then overwrite k v l
              else (l ++ [{| key := k; val := v |}])%list |}.

(** A world that records what is released and decides which allocation
    requests fail: [outcomes] lists the fate of the coming requests (every
    request succeeds once the list is used up). *)
Record Heap := {
  outcomes : list bool;
  released : list (option VmafDictionary)
}.

Definition heap_malloc (sz : Z) (h : Heap) : bool * Heap :=
  match outcomes h with
  | [] => (true, h)
  | ok :: rest => (ok, {| outcomes := rest; released := released h |})
  end.

Definition ENOMEM : Z := 12.

(** Modelled from the spec: [set(key, value) -> ok|error] of the store,
    which fails on "allocation exhaustion in the underlying set". *)
Definition heap_dictionary_set (d : option VmafDictionary) (k v : string)
    (flags : Z) (h : Heap) : Z * option VmafDictionary * Heap :=
  let '(ok, h') := heap_malloc 0 h in
  if ok then (0, Some (dictionary_insert d k v), h')
  else (- ENOMEM, d, h').

(** Modelled from the spec: [release()] of the store. *)
Definition heap_dictionary_free (d : option VmafDictionary) (h : Heap) : Heap :=
  {| outcomes := outcomes h; released := d :: released h |}.

(** The collaborators over [Heap]. The constants are declared in
    [feature_name.h] and [opt.h], outside [feature_name.c]: [256] and the
    bit [1] are sample values. *)
Definition heap_externals : Externals := {|
  World := Heap;
  vmaf_feature_name_alias := sample_feature_name_alias;
  VMAF_FEATURE_NAME_DEFAULT_BUFFER_SIZE := 256;
  VMAF_OPT_FLAG_FEATURE_PARAM := 1;
  malloc := heap_malloc;
  free := fun h => h;
  vmaf_dictionary_set := heap_dictionary_set;
  vmaf_dictionary_free := heap_dictionary_free
|}.

(** The same collaborators when no allocation ever fails. *)
Definition reliable_externals : Externals := {|
  World := unit;
  vmaf_feature_name_alias := sample_feature_name_alias;
  VMAF_FEATURE_NAME_DEFAULT_BUFFER_SIZE := 256;
  VMAF_OPT_FLAG_FEATURE_PARAM := 1;
  malloc := fun _ w => (true, w);
  free := fun w => w;
  vmaf_dictionary_set := fun d k v _ w => (0, Some (dictionary_insert d k v), w);
  vmaf_dictionary_free := fun _ w => w
|}.

(** ** Sample inputs *)

Definition double_1_0 : double := 0x3FF0000000000000.
Definition double_1_5 : double := 0x3FF8000000000000.

Definition no_default : VmafOptionValue :=
  {| val_b := false; val_i := 0; val_d := 0 |}.

(** The descriptor of the spec: [adm_enhn_gain_limit], alias [egl], a
    double with default [1.0], at offset [0]. *)
Definition opt_egl : VmafOption := {|
  name := Some "adm_enhn_gain_limit";
  alias := Some "egl";
  type := VMAF_OPT_TYPE_DOUBLE;
  default_val := {| val_b := false; val_i := 0; val_d := double_1_0 |};
  offset := 0;
  flags := 1
|}.

(** An [int] option without alias, default [3], at offset [8]. *)
Definition opt_nvd : VmafOption := {|
  name := Some "adm_norm_view_dist";
  alias := None;
  type := VMAF_OPT_TYPE_INT;
  default_val := {| val_b := false; val_i := 3; val_d := 0 |};
  offset := 8;
  flags := 1
|}.

(** The entry that ends an array of options. *)
Definition opt_end : VmafOption := {|
  name := None;
  alias := None;
  type := VMAF_OPT_TYPE_other;
  default_val := no_default;
  offset := 0;
  flags := 0
|}.

(** The memory that holds the bytes [l] from offset [0] on, and [0]
    elsewhere. *)
Definition memory_of (l : list Z) : Memory :=
  fun k => if k <? 0 then 0 else nth (Z.to_nat k) l 0.

(** Little-endian bytes of an integer. *)
Fixpoint le_bytes (n : nat) (z : Z) : list Z :=
  match n with
  | O => []
  | S n' => z mod 256 :: le_bytes n' (z / 256)
  end.

(** An object whose double at offset [0] is [g] and whose int at offset [8]
    is [v]. *)
Definition sample_obj (g : double) (v : Z) : Memory :=
  memory_of (le_bytes 8 g ++ le_bytes 4 v)%list.

Definition dict_declared : VmafDictionary :=
  {| entry := [ {| key := "adm_enhn_gain_limit"; val := "1.5" |};
                {| key := "adm_norm_view_dist"; val := "5" |} ] |}.

Definition dict_reversed : VmafDictionary :=
  {| entry := [ {| key := "adm_norm_view_dist"; val := "5" |};
                {| key := "adm_enhn_gain_limit"; val := "1.5" |} ] |}.

(** Two arrays of entries that repeat a key, which no dictionary built by
    [vmaf_dictionary_set] does. *)
Definition dict_repeated_key_12 : VmafDictionary :=
  {| entry := [ {| key := "adm_enhn_gain_limit"; val := "1" |};
                {| key := "adm_enhn_gain_limit"; val := "2" |} ] |}.

Definition dict_repeated_key_21 : VmafDictionary :=
  {| entry := [ {| key := "adm_enhn_gain_limit"; val := "2" |};
                {| key := "adm_enhn_gain_limit"; val := "1" |} ] |}.

Definition heap0 : Heap := {| outcomes := []; released := [] |}.

Definition sample_opts : list VmafOption := [opt_egl; opt_nvd; opt_end].

(** The dictionary of an object whose gain limit alone is not at its
    default. *)
Definition dict_egl : option VmafDictionary :=
  Some {| entry := [ {| key := "adm_enhn_gain_limit"; val := "1.5" |} ] |}.

(** A world whose second allocation request fails. *)
Definition heap_second_fails : Heap := {| outcomes := [true; false]; released := [] |}.

(** A world whose fifth allocation request fails. *)
Definition heap_fifth_fails : Heap :=
  {| outcomes := [true; true; true; true; false]; released := [] |}.

(** [n] times the character [c]. *)
Fixpoint str_repeat (c : ascii) (n : nat) : string :=
  match n with
  | O => EmptyString
  | S n' => String c (str_repeat c n')
  end.

(** ** Notions used to state the properties *)

(** The options before the entry without a name, each with its name: the
    ones the loops visit, in the order of the array. *)
Fixpoint named_options (opts : list VmafOption) : list (string * VmafOption) :=
  match opts with
  | [] => []
  | opt :: rest =>
      match name opt with
      | None => []
      | Some n => (n, opt) :: named_options rest
      end
  end.

(** The value stored under the key [k]. *)
Fixpoint dict_lookup (k : string) (l : list VmafDictionaryEntry) : option string :=
  match l with
  | [] => None
  | e :: l' => if streq k (key e) then Some (val e) else dict_lookup k l'
  end.

(** The key shown for an option: its alias when it has one, else its name. *)
Definition display_key (n : string) (opt : VmafOption) : string :=
  match alias opt with
  | Some a => a
  | None => n
  end.

Fixpoint str_concat (l : list string) : string :=
  match l with
  | [] => EmptyString
  | s :: l' => s ++ str_concat l'
  end.

(** The value of an option differs from its declared default, by the exact
    equality of its kind. *)
Definition differs_from_default (opt : VmafOption) (data : Memory) : bool :=
  match type opt with
  | VMAF_OPT_TYPE_BOOL => negb (Bool.eqb (val_b (default_val opt)) (load_bool data))
  | VMAF_OPT_TYPE_INT => negb (val_i (default_val opt) =? load_int data)
  | VMAF_OPT_TYPE_DOUBLE => negb (double_eq (val_d (default_val opt)) (load_double data))
  | VMAF_OPT_TYPE_other => false
  end.

Section Notions.
Context {E : Externals}.

(** The copy [vmaf_feature_name_from_opts_dict] returns for the string [s]:
    [strlen s + 1] bytes are requested, and [NULL] is returned when the
    request fails. *)
Definition return_copy (s : string) (w : World) : option string * World :=
  let '(dst, w') := malloc (strlen s + 1) w in
  if negb dst then (None, w') else (Some s, w').

(** What a named option adds to a name composed from the entries [l]. *)
Definition option_suffix (l : list VmafDictionaryEntry)
    (o : string * VmafOption) : string :=
  if feature_param (snd o) then
    match dict_lookup (fst o) l with
    | Some v => "_" ++ display_key (fst o) (snd o) ++ "_" ++ v
    | None => ""
    end
  else "".

(** A named option takes part in the name of the object [obj]: it is a
    feature parameter and its value differs from its default. *)
Definition in_name (obj : Memory) (o : string * VmafOption) : bool :=
  feature_param (snd o) && differs_from_default (snd o) (mem_at obj (offset (snd o))).

(** What a named option contributes to the name of the object [obj]. *)
Definition option_contribution (obj : Memory) (o : string * VmafOption) : string :=
  if in_name obj o then
    "_" ++ display_key (fst o) (snd o) ++ "_" ++
    option_value_text (snd o) (mem_at obj (offset (snd o)))
  else "".

(** The entry the scan inserts for a named option. *)
Definition name_entry (obj : Memory) (o : string * VmafOption) : VmafDictionaryEntry :=
  {| key := fst o; val := option_value_text (snd o) (mem_at obj (offset (snd o))) |}.

(** The entries of the options that take part in the name, in the order of
    the array. *)
Definition selected_entries (obj : Memory) (l : list (string * VmafOption))
    : list VmafDictionaryEntry :=
  map (name_entry obj) (filter (in_name obj) l).

(** The names of the feature parameters among the named options. *)
Definition parameter_names (l : list (string * VmafOption)) : list string :=
  map fst (filter (fun o => feature_param (snd o)) l).

(** The dictionary does not fail: setting a key that is not yet present
    succeeds and adds the entry at the end. *)
Definition insertion_succeeds : Prop :=
  forall d k v w,
    ~ In k (map key (entries_of d)) ->
    exists w',
      vmaf_dictionary_set d k v 0 w =
        (0, Some {| entry := (entries_of d ++ [{| key := k; val := v |}])%list |}, w').

(** The allocator does not fail. *)
Definition allocation_succeeds : Prop :=
  forall sz w, fst (malloc sz w) = true.

(** Every feature parameter before the end of the array is at its
    default, as [option_is_default] sees it. *)
Fixpoint all_default (opts : list VmafOption) (obj : Memory) : bool :=
  match opts with
  | [] => true
  | opt :: rest =>
      match name opt with
      | None => true
      | Some _ =>
          (negb (feature_param opt) ||
           negb (option_is_default (Some opt) (Some (mem_at obj (offset opt))) =? 0))
          && all_default rest obj
      end
  end.

End Notions.

(** ** The rest of [snprintfcat], and the local array byte by byte *)

(** What [snprintfcat] returns: [result + len], where [vsnprintf] returns
    the length of the whole text, cut or not. *)
Definition snprintfcat_result (buf : string) (buf_sz : Z) (s : string) : Z :=
  let len := strnlen buf buf_sz in
  (strlen s + len) mod SIZE_MODULUS.

(** [strnlen(buf, n)] on the bytes of an array. *)
Fixpoint strnlen_bytes (buf : list ascii) (n : Z) : Z :=
  match buf with
  | [] => 0
  | c :: rest =>
      if (n <=? 0) || Ascii.eqb c NUL then 0
      else 1 + strnlen_bytes rest (n - 1)
  end.

(** [vsnprintf(buf + off, size, ...)] on the bytes of an array, the
    conversions producing [s]; [None] is a write past its end. *)
Definition vsnprintf_bytes (buf : list ascii) (off size : Z) (s : string)
    : option (list ascii) :=
  if size =? 0 then Some buf
  else
    let out := (list_ascii_of_string (str_take (size - 1) s) ++ [NUL])%list in
    let stop := (Z.to_nat off + List.length out)%nat in
    if (stop <=? List.length buf)%nat
    then Some (firstn (Z.to_nat off) buf ++ out ++ skipn stop buf)%list
    else None.

(** [snprintfcat] on the bytes of an array. *)
Definition snprintfcat_bytes (buf : list ascii) (buf_sz : Z) (s : string)
    : option (list ascii) :=
  let len := strnlen_bytes buf buf_sz in
  vsnprintf_bytes buf len (size_sub buf_sz len) s.

(** ** More notions *)

(** The bytes a field of each kind takes in the object. *)
Definition field_width (t : VmafOptionType) : Z :=
  match t with
  | VMAF_OPT_TYPE_BOOL => 1
  | VMAF_OPT_TYPE_INT => 4
  | VMAF_OPT_TYPE_DOUBLE => 8
  | VMAF_OPT_TYPE_other => 0
  end.

Section MoreNotions.
Context {E : Externals}.

(** The entries [l] set one after the other, up to the first failure. *)
Fixpoint insert_all (l : list VmafDictionaryEntry) (d : option VmafDictionary)
    (w : World) : Z * option VmafDictionary * World :=
  match l with
  | [] => (0, d, w)
  | e :: l' =>
      let '(err, d', w') := vmaf_dictionary_set d (key e) (val e) 0 w in
      if negb (err =? 0) then (err, d', w') else insert_all l' d' w'
  end.

(** What a named option adds to a name composed from any entries [l]: one
    piece for each entry under its name, in the order of [l]. *)
Definition matching_suffix (l : list VmafDictionaryEntry)
    (o : string * VmafOption) : string :=
  if feature_param (snd o) then
    str_concat
      (map (fun e => "_" ++ display_key (fst o) (snd o) ++ "_" ++ val e)
           (filter (fun e => streq (fst o) (key e)) l))
  else "".

(** The name of the object [obj] under the base name [base]. *)
Definition canonical_name (base : string) (opts : list VmafOption) (obj : Memory)
    : string :=
  str_take (VMAF_FEATURE_NAME_DEFAULT_BUFFER_SIZE - 1)
    ((if existsb (in_name obj) (named_options opts)
      then vmaf_feature_name_alias base else base) ++
     str_concat (map (option_contribution obj) (named_options opts))).

(** The entry of the result map for a provided feature. *)
Definition feature_entry (opts : list VmafOption) (obj : Memory) (f : string)
    : VmafDictionaryEntry :=
  {| key := f; val := canonical_name f opts obj |}.

(** Two objects hold the same bytes in the field of every feature
    parameter among the named options. *)
Definition same_fields (opts : list VmafOption) (obj1 obj2 : Memory) : Prop :=
  forall o, In o (named_options opts) -> feature_param (snd o) = true ->
  forall k, 0 <= k < field_width (type (snd o)) ->
    load_u8 (mem_at obj1 (offset (snd o))) k = load_u8 (mem_at obj2 (offset (snd o))) k.

End MoreNotions.

(** A dictionary whose only key names no option of [sample_opts]. *)
Definition dict_unrelated : VmafDictionary :=
  {| entry := [ {| key := "motion_force_zero"; val := "1" |} ] |}.

(** A quiet NaN. *)
Definition double_nan : double := 0x7FF8000000000000.

(** The object [sample_obj g v] with one more byte, at offset [12], which
    no option of [sample_opts] covers. *)
Definition sample_obj_padded (g : double) (v : Z) : Memory :=
  memory_of (le_bytes 8 g ++ le_bytes 4 v ++ [255])%list.

(** A second option under the name [adm_enhn_gain_limit], at offset [16]. *)
Definition opt_egl_again : VmafOption := {|
  name := Some "adm_enhn_gain_limit";
  alias := Some "egl";
  type := VMAF_OPT_TYPE_DOUBLE;
  default_val := {| val_b := false; val_i := 0; val_d := double_1_0 |};
  offset := 16;
  flags := 1
|}.

(** An object whose double at offset [0] is [g1] and whose double at offset
    [16] is [g2]. *)
Definition two_doubles_obj (g1 g2 : double) : Memory :=
  memory_of (le_bytes 8 g1 ++ le_bytes 8 0 ++ le_bytes 8 g2)%list.

(** ** The conversions on sample values *)

Example fmt_d_samples :
  map fmt_d [0; 7; -120; 2147483647; -2147483648] =
    ["0"; "7"; "-120"; "2147483647"; "-2147483648"].
Proof. vm_compute. reflexivity. Qed.

(** [1.0], [1.5], [0.1], [100000.0], [1000000.0], [0.0001], [0.00001],
    [123456789.0], [999999.5], [-0.0], the smallest and the largest finite
    doubles, the infinities and a NaN. *)
Example fmt_g_samples :
  map fmt_g
    [0x3FF0000000000000; 0x3FF8000000000000; 0x3FB999999999999A;
     0x40F86A0000000000; 0x412E848000000000; 0x3F1A36E2EB1C432D;
     0x3EE4F8B588E368F1; 0x419D6F3454000000; 0x412E847F00000000;
     0x8000000000000000; 1; 0x7FEFFFFFFFFFFFFF;
     0x7FF0000000000000; 0xFFF0000000000000; 0x7FF8000000000000] =
    ["1"; "1.5"; "0.1"; "100000"; "1e+06"; "0.0001"; "1e-05"; "1.23457e+08";
     "1e+06"; "-0"; "4.94066e-324"; "1.79769e+308"; "inf"; "-inf"; "nan"].
Proof. vm_compute. reflexivity. Qed.

Example double_eq_samples :
  double_eq double_1_0 double_1_0 = true /\
  double_eq double_1_0 double_1_5 = false /\
  double_eq 0 0x8000000000000000 = true /\
  double_eq 0x7FF8000000000000 0x7FF8000000000000 = false.
Proof. vm_compute. repeat split; reflexivity. Qed.

Example sample_obj_fields :
  load_double (mem_at (sample_obj double_1_5 (-7)) 0) = double_1_5 /\
  load_int (mem_at (sample_obj double_1_5 (-7)) 8) = -7.
Proof. vm_compute. split; reflexivity. Qed.

(** ** Facts about strings and buffers *)

Lemma strlen_nonneg (s : string) : 0 <= strlen s.
Proof. unfold strlen. lia. Qed.

Lemma strlen_String (c : ascii) (s : string) : strlen (String c s) = strlen s + 1.
Proof. unfold strlen. simpl String.length. lia. Qed.

Lemma strlen_empty : strlen "" = 0.
Proof. reflexivity. Qed.

Lemma strlen_app (s t : string) : strlen (s ++ t) = strlen s + strlen t.
Proof.
  induction s as [|c s IH]; cbn [append].
  - rewrite strlen_empty. lia.
  - rewrite !strlen_String, IH. lia.
Qed.

Lemma str_app_assoc (s t u : string) : (s ++ t) ++ u = s ++ (t ++ u).
Proof. induction s as [|c s IH]; cbn [append]; [reflexivity | now rewrite IH]. Qed.

Lemma str_app_empty_r (s : string) : s ++ "" = s.
Proof. induction s as [|c s IH]; cbn [append]; [reflexivity | now rewrite IH]. Qed.

Lemma str_take_nonpos (n : Z) (s : string) : n <= 0 -> str_take n s = "".
Proof.
  intros Hn. destruct s as [|c s]; cbn [str_take]; [reflexivity|].
  destruct (Z.leb_spec n 0); [reflexivity | lia].
Qed.

Lemma str_take_all (s : string) : forall n, strlen s <= n -> str_take n s = s.
Proof.
  induction s as [|c s IH]; intros n Hn; cbn [str_take]; [reflexivity|].
  rewrite strlen_String in Hn. pose proof (strlen_nonneg s).
  destruct (Z.leb_spec n 0); [lia|].
  rewrite IH by lia. reflexivity.
Qed.

Lemma strlen_str_take (s : string) :
  forall n, 0 <= n -> strlen (str_take n s) = Z.min n (strlen s).
Proof.
  induction s as [|c s IH]; intros n Hn; cbn [str_take].
  - rewrite strlen_empty. lia.
  - rewrite strlen_String. pose proof (strlen_nonneg s).
    destruct (Z.leb_spec n 0).
    + rewrite strlen_empty. lia.
    + rewrite strlen_String, IH by lia. lia.
Qed.

Lemma str_take_app (s t : string) :
  forall n, str_take n (s ++ t) = str_take n s ++ str_take (n - strlen s) t.
Proof.
  induction s as [|c s IH]; intros n; cbn [append str_take].
  - rewrite strlen_empty. now rewrite Z.sub_0_r.
  - rewrite strlen_String. destruct (Z.leb_spec n 0).
    + cbn [append]. pose proof (strlen_nonneg s).
      now rewrite str_take_nonpos by lia.
    + cbn [append]. rewrite IH.
      replace (n - (strlen s + 1)) with (n - 1 - strlen s) by lia. reflexivity.
Qed.

Lemma length_bytes (s : string) :
  Z.of_nat (List.length (list_ascii_of_string s)) = strlen s.
Proof.
  induction s as [|c s IH]; cbn [list_ascii_of_string List.length].
  - reflexivity.
  - rewrite strlen_String. lia.
Qed.

Lemma skipn_repeat {A} (x : A) (k n : nat) :
  skipn k (repeat x n) = repeat x (n - k).
Proof.
  revert n. induction k as [|k IH]; intros n; simpl.
  - now rewrite Nat.sub_0_r.
  - destruct n as [|n]; simpl; [reflexivity | apply IH].
Qed.

Lemma memset_whole (buf : list ascii) (c : ascii) (n : Z) :
  Z.of_nat (List.length buf) = n -> memset buf c n = Some (repeat c (Z.to_nat n)).
Proof.
  intros H. unfold memset. rewrite H, Z.leb_refl. f_equal.
  rewrite skipn_all2 by lia. apply app_nil_r.
Qed.

(** Appending to a local array keeps the string cut at [buf_sz - 1]
    characters. *)
Lemma snprintfcat_take (buf_sz : Z) (s t : string) :
  0 < buf_sz < SIZE_MODULUS ->
  snprintfcat (str_take (buf_sz - 1) s) buf_sz t = str_take (buf_sz - 1) (s ++ t).
Proof.
  intros HB. unfold snprintfcat, strnlen, vsnprintf_at, size_sub.
  pose proof (strlen_nonneg s) as Hs.
  rewrite strlen_str_take by lia.
  replace (Z.min (Z.min (buf_sz - 1) (strlen s)) buf_sz)
    with (Z.min (buf_sz - 1) (strlen s)) by lia.
  rewrite Z.mod_small by lia.
  destruct (Z.eqb_spec (buf_sz - Z.min (buf_sz - 1) (strlen s)) 0) as [H0|_]; [lia|].
  rewrite str_take_app. f_equal.
  - apply str_take_all. rewrite strlen_str_take by lia. lia.
  - destruct (Z.le_ge_cases (buf_sz - 1) (strlen s)).
    + rewrite !str_take_nonpos by lia. reflexivity.
    + f_equal. lia.
Qed.

Lemma snprintfcat_empty (buf_sz : Z) (t : string) :
  0 < buf_sz < SIZE_MODULUS ->
  snprintfcat "" buf_sz t = str_take (buf_sz - 1) t.
Proof.
  intros HB. pose proof (snprintfcat_take buf_sz "" t HB) as H.
  cbn [append str_take] in H. exact H.
Qed.

Lemma key_alias_motion_force_zero : key_alias "motion_force_zero" = Some "force".
Proof. reflexivity. Qed.

Lemma length_bytes_nat (s : string) :
  List.length (list_ascii_of_string s) = String.length s.
Proof.
  induction s as [|c s IH]; cbn [list_ascii_of_string List.length String.length];
    [reflexivity | now rewrite IH].
Qed.

(** [snprintf] into a zeroed buffer that is large enough for the [n] bytes it
    may write. *)
Lemma snprintf_zeroed (N : nat) (n : Z) (s : string) :
  0 < n <= Z.of_nat N ->
  let t := str_take (n - 1) s in
  snprintf (repeat NUL N) n s =
    Some (list_ascii_of_string t ++ repeat NUL (N - String.length t))%list.
Proof.
  intros Hn t. unfold snprintf.
  destruct (Z.eqb_spec n 0) as [H0|_]; [lia|]. fold t.
  assert (Ht : strlen t <= n - 1).
  { unfold t. rewrite strlen_str_take by lia. lia. }
  unfold strlen in Ht.
  rewrite length_app, length_bytes_nat, repeat_length. cbn [List.length].
  destruct (Nat.leb_spec (String.length t + 1) N) as [Hle|Hgt]; [|lia].
  rewrite skipn_repeat, <- app_assoc. do 2 f_equal.
  replace (N - String.length t)%nat with (S (N - (String.length t + 1))) by lia.
  reflexivity.
Qed.

Lemma c_string_bytes (s : string) (rest : list ascii) :
  nul_free s = true ->
  c_string (list_ascii_of_string s ++ NUL :: rest)%list = s.
Proof.
  induction s as [|c s IH]; cbn [nul_free list_ascii_of_string app c_string].
  - reflexivity.
  - intros H. apply andb_true_iff in H as [Hc Hs].
    apply negb_true_iff in Hc. rewrite Hc, IH by exact Hs. reflexivity.
Qed.

Lemma nul_free_take (s : string) :
  forall n, nul_free s = true -> nul_free (str_take n s) = true.
Proof.
  induction s as [|c s IH]; intros n; cbn [nul_free str_take]; [reflexivity|].
  intros H. apply andb_true_iff in H as [Hc Hs].
  destruct (n <=? 0); cbn [nul_free]; [reflexivity|].
  now rewrite Hc, IH.
Qed.

Section FormatterFacts.
Context {E : Externals}.

(** What [vmaf_feature_name] leaves in a buffer of [buf_sz] bytes for a key
    of the alias table: the first [buf_sz - 2] characters of the composed
    string, then terminators up to the end of the buffer. *)
Lemma vmaf_feature_name_closed (name k ka : string) (val : double)
    (buf : list ascii) (buf_sz : Z) :
  key_alias k = Some ka ->
  Z.of_nat (List.length buf) = buf_sz ->
  1 <= buf_sz < SIZE_MODULUS ->
  let t := str_take (buf_sz - 2)
             (vmaf_feature_name_alias name ++ "_" ++ ka ++ "_" ++ fmt_g val) in
  vmaf_feature_name name (Some k) val buf buf_sz =
    Some (Ret_buf,
          (list_ascii_of_string t ++ repeat NUL (List.length buf - String.length t))%list).
Proof.
  intros Hk Hlen HB t. unfold vmaf_feature_name. rewrite Hk.
  rewrite (memset_whole buf NUL buf_sz Hlen).
  replace (Z.to_nat buf_sz) with (List.length buf) by lia.
  unfold size_sub. rewrite Z.mod_small by lia.
  destruct (Z.eq_dec buf_sz 1) as [H1|H1].
  - subst t. rewrite H1. unfold snprintf.
    change (1 - 1 =? 0) with true. cbv iota.
    rewrite str_take_nonpos by lia.
    cbn [list_ascii_of_string String.length app]. now rewrite Nat.sub_0_r.
  - rewrite snprintf_zeroed by lia.
    replace (buf_sz - 1 - 1) with (buf_sz - 2) by lia. reflexivity.
Qed.

End FormatterFacts.

(** ** The dictionary seen through its keys *)

Lemma streq_true (a b : string) : streq a b = true <-> a = b.
Proof. unfold streq. apply String.eqb_eq. Qed.

Lemma streq_false (a b : string) : streq a b = false <-> a <> b.
Proof. unfold streq. apply String.eqb_neq. Qed.

Lemma dict_lookup_none (k : string) (l : list VmafDictionaryEntry) :
  dict_lookup k l = None <-> ~ In k (map key l).
Proof.
  induction l as [|e l IH]; cbn [dict_lookup map In].
  - tauto.
  - destruct (streq k (key e)) eqn:Hk.
    + apply streq_true in Hk. split; [discriminate | intros H; exfalso; apply H; auto].
    + apply streq_false in Hk. rewrite IH. intuition congruence.
Qed.

Lemma dict_lookup_in (k v : string) (l : list VmafDictionaryEntry) :
  dict_lookup k l = Some v -> In {| key := k; val := v |} l.
Proof.
  induction l as [|e l IH]; cbn [dict_lookup In]; [discriminate|].
  destruct (streq k (key e)) eqn:Hk.
  - apply streq_true in Hk. intros [= <-]. left. subst k. now destruct e.
  - auto.
Qed.

Lemma in_dict_lookup (k v : string) (l : list VmafDictionaryEntry) :
  NoDup (map key l) -> In {| key := k; val := v |} l -> dict_lookup k l = Some v.
Proof.
  induction l as [|e l IH]; cbn [dict_lookup map In]; [tauto|].
  intros Hnd [He | Hin]; inversion Hnd as [|x xs Hx Hnd']; subst.
  - cbn [key val]. now rewrite (proj2 (streq_true k k) eq_refl).
  - destruct (streq k (key e)) eqn:Hk.
    + apply streq_true in Hk. exfalso. apply Hx. subst k.
      change (key e) with (key {| key := key e; val := v |}). now apply in_map.
    + auto.
Qed.

(** With unique keys, looking a key up does not depend on the order of the
    entries. *)
Lemma dict_lookup_perm (k : string) (l1 l2 : list VmafDictionaryEntry) :
  Permutation l1 l2 -> NoDup (map key l1) -> dict_lookup k l1 = dict_lookup k l2.
Proof.
  intros Hp Hnd.
  assert (Hnd2 : NoDup (map key l2)).
  { eapply Permutation_NoDup; [apply Permutation_map, Hp | exact Hnd]. }
  destruct (dict_lookup k l1) as [v|] eqn:H1.
  - symmetry. apply in_dict_lookup; [exact Hnd2|].
    eapply Permutation_in; [exact Hp | now apply dict_lookup_in].
  - symmetry. apply dict_lookup_none. apply dict_lookup_none in H1.
    intros Hin. apply H1. eapply Permutation_in; [|exact Hin].
    apply Permutation_map. now apply Permutation_sym.
Qed.

Section ComposerFacts.
Context {E : Externals}.

Lemma append_entries_no_match (opt : VmafOption) (n : string)
    (l : list VmafDictionaryEntry) (buf_sz : Z) (buf : string) :
  dict_lookup n l = None -> append_entries opt n l buf_sz buf = buf.
Proof.
  induction l as [|e l IH]; cbn [dict_lookup append_entries]; [reflexivity|].
  destruct (streq n (key e)); cbn [negb]; [discriminate | exact IH].
Qed.

(** With unique keys the loop over the entries appends at most once. *)
Lemma append_entries_lookup (opt : VmafOption) (n : string)
    (l : list VmafDictionaryEntry) (buf_sz : Z) (buf : string) :
  NoDup (map key l) ->
  append_entries opt n l buf_sz buf =
    if feature_param opt then
      match dict_lookup n l with
      | Some v => snprintfcat buf buf_sz ("_" ++ display_key n opt ++ "_" ++ v)
      | None => buf
      end
    else buf.
Proof.
  induction l as [|e l IH]; cbn [dict_lookup append_entries map]; intros Hnd.
  - now destruct (feature_param opt).
  - inversion Hnd as [|x xs Hx Hnd']; subst.
    destruct (streq n (key e)) eqn:Hk; cbn [negb].
    + apply streq_true in Hk. subst n.
      assert (Hno : dict_lookup (key e) l = None) by now apply dict_lookup_none.
      destruct (feature_param opt); cbn [negb];
        now rewrite append_entries_no_match.
    + now apply IH.
Qed.

Lemma append_options_perm (opts : list VmafOption) (d1 d2 : VmafDictionary)
    (buf_sz : Z) :
  Permutation (entry d1) (entry d2) -> NoDup (map key (entry d1)) ->
  forall buf, append_options opts d1 buf_sz buf = append_options opts d2 buf_sz buf.
Proof.
  intros Hp Hnd.
  assert (Hnd2 : NoDup (map key (entry d2))).
  { eapply Permutation_NoDup; [apply Permutation_map, Hp | exact Hnd]. }
  induction opts as [|opt rest IH]; intros buf; cbn [append_options]; [reflexivity|].
  destruct (name opt) as [n|]; [|reflexivity].
  rewrite !append_entries_lookup by assumption.
  rewrite (dict_lookup_perm n _ _ Hp Hnd). apply IH.
Qed.

(** The loops compose the suffixes of the named options, in the order of
    the array, onto a string that stays cut at [buf_sz - 1] characters. *)
Lemma append_options_closed (d : VmafDictionary) (buf_sz : Z) :
  0 < buf_sz < SIZE_MODULUS -> NoDup (map key (entry d)) ->
  forall opts s,
    append_options opts d buf_sz (str_take (buf_sz - 1) s) =
    str_take (buf_sz - 1)
      (s ++ str_concat (map (option_suffix (entry d)) (named_options opts))).
Proof.
  intros HB Hnd. induction opts as [|opt rest IH]; intros s;
    cbn [append_options named_options].
  - cbn [map str_concat]. now rewrite str_app_empty_r.
  - destruct (name opt) as [n|].
    + cbn [map str_concat]. rewrite append_entries_lookup by assumption.
      unfold option_suffix at 1. cbn [fst snd].
      destruct (feature_param opt).
      * destruct (dict_lookup n (entry d)) as [v|].
        -- rewrite snprintfcat_take by assumption. rewrite IH.
           now rewrite str_app_assoc.
        -- rewrite IH. reflexivity.
      * rewrite IH. reflexivity.
    + cbn [map str_concat]. now rewrite str_app_empty_r.
Qed.

(** The end of [vmaf_feature_name_from_opts_dict] on an array that holds
    at most [buf_sz - 1] characters. *)
Lemma copy_of_local_buffer (buf_sz : Z) (s : string) :
  0 < buf_sz < SIZE_MODULUS ->
  let buf := str_take (buf_sz - 1) s in
  (strnlen buf buf_sz + 1) mod SIZE_MODULUS = strlen buf + 1 /\
  strncpy buf (strlen buf + 1) = buf.
Proof.
  intros HB buf. pose proof (strlen_nonneg s).
  assert (Hlen : strlen buf <= buf_sz - 1).
  { unfold buf. rewrite strlen_str_take by lia. lia. }
  pose proof (strlen_nonneg buf).
  unfold strnlen, strncpy. split.
  - rewrite Z.min_l by lia. apply Z.mod_small. lia.
  - apply str_take_all. lia.
Qed.

Lemma from_opts_dict_absent (name : string) (opts : option (list VmafOption))
    (opts_dict : option VmafDictionary) (w : World) :
  0 < VMAF_FEATURE_NAME_DEFAULT_BUFFER_SIZE < SIZE_MODULUS ->
  opts = None \/ opts_dict = None ->
  vmaf_feature_name_from_opts_dict name opts opts_dict w =
    return_copy (str_take (VMAF_FEATURE_NAME_DEFAULT_BUFFER_SIZE - 1) name) w.
Proof.
  intros HB Habs. unfold vmaf_feature_name_from_opts_dict, return_copy.
  assert (Hbuf : match opts, opts_dict with
                 | Some os, Some d =>
                     append_options os d VMAF_FEATURE_NAME_DEFAULT_BUFFER_SIZE
                       (snprintfcat "" VMAF_FEATURE_NAME_DEFAULT_BUFFER_SIZE
                          (vmaf_feature_name_alias name))
                 | _, _ => snprintfcat "" VMAF_FEATURE_NAME_DEFAULT_BUFFER_SIZE name
                 end = str_take (VMAF_FEATURE_NAME_DEFAULT_BUFFER_SIZE - 1) name).
  { destruct Habs as [-> | ->]; [|destruct opts]; now apply snprintfcat_empty. }
  rewrite Hbuf.
  destruct (copy_of_local_buffer _ name HB) as [-> ->]. reflexivity.
Qed.

Lemma from_opts_dict_present (name : string) (opts : list VmafOption)
    (d : VmafDictionary) (w : World) :
  0 < VMAF_FEATURE_NAME_DEFAULT_BUFFER_SIZE < SIZE_MODULUS ->
  NoDup (map key (entry d)) ->
  vmaf_feature_name_from_opts_dict name (Some opts) (Some d) w =
    return_copy
      (str_take (VMAF_FEATURE_NAME_DEFAULT_BUFFER_SIZE - 1)
         (vmaf_feature_name_alias name ++
          str_concat (map (option_suffix (entry d)) (named_options opts)))) w.
Proof.
  intros HB Hnd. unfold vmaf_feature_name_from_opts_dict, return_copy.
  rewrite snprintfcat_empty by assumption.
  rewrite append_options_closed by assumption.
  match goal with |- context [str_take _ ?x] =>
    destruct (copy_of_local_buffer _ x HB) as [-> ->] end.
  reflexivity.
Qed.

(** Whatever the buffer size is, a base name of that many characters or
    more does not come back verbatim. *)
Lemma from_opts_dict_absent_cuts (name : string) (w : World) :
  0 < VMAF_FEATURE_NAME_DEFAULT_BUFFER_SIZE < SIZE_MODULUS ->
  VMAF_FEATURE_NAME_DEFAULT_BUFFER_SIZE <= strlen name ->
  fst (vmaf_feature_name_from_opts_dict name None None w) <> Some name.
Proof.
  intros HB Hlen. rewrite from_opts_dict_absent by auto.
  unfold return_copy. destruct (malloc _ w) as [dst w'].
  destruct dst; cbn [negb fst]; [|discriminate].
  intros [= H]. apply (f_equal strlen) in H.
  rewrite strlen_str_take in H by lia. lia.
Qed.

End ComposerFacts.

(** ** The scan of the options *)

Section ScanFacts.
Context {E : Externals}.

Lemma scan_options_all_default (obj : Memory) (opts : list VmafOption) :
  all_default opts obj = true ->
  forall d w, scan_options opts obj d w = (0, d, w).
Proof.
  induction opts as [|opt rest IH]; cbn [all_default scan_options]; [reflexivity|].
  destruct (name opt) as [n|]; [|reflexivity].
  intros H d w. apply andb_true_iff in H as [H1 H2].
  destruct (feature_param opt); cbn [negb orb] in *.
  - rewrite H1. now apply IH.
  - now apply IH.
Qed.

(** A scan that went through [pre] without meeting the end of the array
    goes on with the rest. *)
Lemma scan_options_app (obj : Memory) (pre rest : list VmafOption) :
  Forall (fun o => name o <> None) pre ->
  forall d w d0 w0,
    scan_options pre obj d w = (0, d0, w0) ->
    scan_options (pre ++ rest) obj d w = scan_options rest obj d0 w0.
Proof.
  induction 1 as [|opt pre Hopt Hpre IH]; intros d w d0 w0;
    cbn [scan_options app].
  - now intros [= -> ->].
  - destruct (name opt) as [n|]; [|congruence].
    destruct (negb (feature_param opt)); [apply IH|].
    destruct (negb (option_is_default (Some opt) (Some (mem_at obj (offset opt))) =? 0));
      [apply IH|].
    destruct (vmaf_dictionary_set d n _ 0 w) as [[err d'] w'].
    destruct (Z.eqb_spec err 0) as [->|Hne]; cbn [negb].
    + apply IH.
    + intros [= -> _ _]. congruence.
Qed.

Lemma scan_options_failing_insertion (obj : Memory) (opt : VmafOption) (n : string)
    (rest : list VmafOption) (d : option VmafDictionary) (w : World)
    (err : Z) (d' : option VmafDictionary) (w' : World) :
  name opt = Some n ->
  feature_param opt = true ->
  option_is_default (Some opt) (Some (mem_at obj (offset opt))) = 0 ->
  vmaf_dictionary_set d n (option_value_text opt (mem_at obj (offset opt))) 0 w
    = (err, d', w') ->
  err <> 0 ->
  scan_options (opt :: rest) obj d w = (err, d', w').
Proof.
  intros Hn Hf Hd Hset Herr. cbn [scan_options].
  rewrite Hn, Hf, Hd, Hset. cbn [negb Z.eqb].
  destruct (Z.eqb_spec err 0); [contradiction | reflexivity].
Qed.

(** A loop over the provided features that went through [pre] goes on with
    the rest. *)
Lemma provided_features_loop_app (opts : option (list VmafOption))
    (obj : option Memory) (pre rest : list string) :
  forall d w d0 w0,
    provided_features_loop pre opts obj d w = (Dict_ptr d0, w0) ->
    provided_features_loop (pre ++ rest) opts obj d w =
      provided_features_loop rest opts obj d0 w0.
Proof.
  induction pre as [|f pre IH]; intros d w d0 w0;
    cbn [provided_features_loop app].
  - now intros [= -> ->].
  - destruct (vmaf_feature_name_from_options (Some f) opts obj w) as [[s|] w1];
      [|discriminate].
    destruct (vmaf_dictionary_set d f s 0 w1) as [[err d'] w2].
    destruct (negb (err =? 0)); [discriminate | apply IH].
Qed.

(** A loop that returns a dictionary went through each of its prefixes. *)
Lemma provided_features_loop_prefix (opts : option (list VmafOption))
    (obj : option Memory) (pre rest : list string) :
  forall d w dd ww,
    provided_features_loop (pre ++ rest) opts obj d w = (Dict_ptr dd, ww) ->
    exists d0 w0,
      provided_features_loop pre opts obj d w = (Dict_ptr d0, w0) /\
      provided_features_loop rest opts obj d0 w0 = (Dict_ptr dd, ww).
Proof.
  induction pre as [|f pre IH]; intros d w dd ww;
    cbn [provided_features_loop app].
  - intros H. now exists d, w.
  - destruct (vmaf_feature_name_from_options (Some f) opts obj w) as [[s|] w1];
      [|discriminate].
    destruct (vmaf_dictionary_set d f s 0 w1) as [[err d'] w2].
    destruct (negb (err =? 0)); [discriminate | apply IH].
Qed.

(** [option_is_default] is [0] exactly when the value differs from the
    default by the equality of its kind. *)
Lemma option_is_default_differs (o : VmafOption) (m : Memory) :
  (option_is_default (Some o) (Some m) =? 0) = differs_from_default o m.
Proof.
  unfold option_is_default, differs_from_default.
  destruct (type o); try reflexivity.
  - now destruct (Bool.eqb _ _).
  - now destruct (val_i (default_val o) =? load_int m).
  - now destruct (double_eq _ _).
Qed.

Lemma selected_keys (obj : Memory) (l : list (string * VmafOption)) (k : string) :
  In k (map key (selected_entries obj l)) -> In k (parameter_names l).
Proof.
  unfold selected_entries, parameter_names, in_name.
  induction l as [|o l IH]; cbn [filter map In]; [tauto|].
  destruct (feature_param (snd o)); cbn [andb map In].
  - destruct (differs_from_default _ _); cbn [map In key name_entry]; tauto.
  - exact IH.
Qed.

Lemma selected_keys_unique (obj : Memory) (l : list (string * VmafOption)) :
  NoDup (parameter_names l) -> NoDup (map key (selected_entries obj l)).
Proof.
  induction l as [|o l IH]; [constructor|].
  intros Hnd. pose proof (selected_keys obj l) as Hsub.
  unfold selected_entries, parameter_names, in_name in *.
  cbn [filter map] in *.
  destruct (feature_param (snd o)); cbn [andb map] in *; [|now apply IH].
  inversion Hnd as [|x xs Hx Hnd']; subst.
  destruct (differs_from_default _ _); cbn [map key name_entry]; [|now apply IH].
  constructor; [|now apply IH]. intros Hin. apply Hx. now apply Hsub.
Qed.

(** The scan of a reliable dictionary inserts the selected entries, in the
    order of the array, and leaves the dictionary alone when there are
    none. *)
Lemma scan_options_closed (obj : Memory) :
  insertion_succeeds ->
  forall opts d w,
    NoDup (map key (entries_of d) ++ parameter_names (named_options opts)) ->
    exists w',
      scan_options opts obj d w =
        (0,
         match selected_entries obj (named_options opts) with
         | [] => d
         | sel => Some {| entry := (entries_of d ++ sel)%list |}
         end,
         w').
Proof.
  intros Hins. unfold selected_entries, parameter_names, in_name.
  induction opts as [|opt rest IH]; intros d w Hnd;
    cbn [scan_options named_options].
  - now exists w.
  - cbn [named_options] in Hnd.
    destruct (name opt) as [n|] eqn:Hn; [|now exists w].
    cbn [filter map fst snd] in *.
    rewrite option_is_default_differs.
    destruct (feature_param opt); cbn [negb andb map fst] in *.
    + destruct (differs_from_default opt (mem_at obj (offset opt)));
        cbn [negb map] in *.
      * destruct (Hins d n (option_value_text opt (mem_at obj (offset opt))) w)
          as [w1 Hset].
        { intros Hin. apply (NoDup_remove_2 _ _ _ Hnd).
          apply in_or_app. now left. }
        rewrite Hset. cbn [Z.eqb negb].
        destruct (IH (Some {| entry :=
                       (entries_of d ++
                        [{| key := n;
                            val := option_value_text opt (mem_at obj (offset opt)) |}])%list |})
                     w1) as [w' Hrest].
        { cbn [entries_of entry]. rewrite map_app, <- app_assoc. exact Hnd. }
        exists w'. rewrite Hrest. cbn [entries_of entry name_entry fst snd].
        destruct (map (name_entry obj) (filter _ (named_options rest))) as [|x xs].
        -- reflexivity.
        -- now rewrite <- app_assoc.
      * apply IH. eapply NoDup_remove_1. exact Hnd.
    + apply IH. exact Hnd.
Qed.

(** With unique parameter names, what is found under the name of a feature
    parameter is its own value, when it takes part in the name. *)
Lemma lookup_selected (obj : Memory) (l : list (string * VmafOption)) :
  NoDup (parameter_names l) ->
  forall o, In o l -> feature_param (snd o) = true ->
    dict_lookup (fst o) (selected_entries obj l) =
      if differs_from_default (snd o) (mem_at obj (offset (snd o)))
      then Some (option_value_text (snd o) (mem_at obj (offset (snd o))))
      else None.
Proof.
  induction l as [|a l IH]; intros Hnd o Hin Hf; [destruct Hin|].
  pose proof (selected_keys obj l) as Hsub.
  unfold selected_entries, parameter_names, in_name in *.
  cbn [filter map] in *.
  destruct Hin as [-> | Hin].
  - rewrite Hf in *. cbn [andb map] in *.
    inversion Hnd as [|x xs Hx Hnd']; subst.
    assert (Hno : dict_lookup (fst o)
                    (map (name_entry obj)
                       (filter (fun o0 => feature_param (snd o0) &&
                                  differs_from_default (snd o0)
                                    (mem_at obj (offset (snd o0)))) l)) = None).
    { apply dict_lookup_none. intros H. apply Hx. now apply Hsub. }
    destruct (differs_from_default (snd o) (mem_at obj (offset (snd o)))).
    + cbn [map dict_lookup name_entry key val].
      now rewrite (proj2 (streq_true (fst o) (fst o)) eq_refl).
    + exact Hno.
  - destruct (feature_param (snd a)) eqn:Hfa; cbn [andb map] in *.
    + inversion Hnd as [|x xs Hx Hnd']; subst.
      assert (Hne : fst o <> fst a).
      { intros Heq. apply Hx. rewrite <- Heq.
        apply in_map. apply filter_In. now split. }
      destruct (differs_from_default (snd a) (mem_at obj (offset (snd a)))).
      * cbn [map dict_lookup name_entry key].
        rewrite (proj2 (streq_false (fst o) (fst a)) Hne). now apply IH.
      * now apply IH.
    + now apply IH.
Qed.

Lemma suffixes_of_selected (obj : Memory) (l : list (string * VmafOption)) :
  NoDup (parameter_names l) ->
  map (option_suffix (selected_entries obj l)) l = map (option_contribution obj) l.
Proof.
  intros Hnd. apply map_ext_in. intros o Hin.
  unfold option_suffix, option_contribution, in_name.
  destruct (feature_param (snd o)) eqn:Hf; cbn [andb]; [|reflexivity].
  rewrite (lookup_selected obj l Hnd o Hin Hf).
  now destruct (differs_from_default _ _).
Qed.

Lemma no_selected_no_contribution (obj : Memory) (l : list (string * VmafOption)) :
  existsb (in_name obj) l = false ->
  selected_entries obj l = [] /\ str_concat (map (option_contribution obj) l) = "".
Proof.
  unfold selected_entries, option_contribution.
  induction l as [|o l IH]; cbn [existsb filter map str_concat]; [now split|].
  destruct (in_name obj o); cbn [orb]; [discriminate|].
  intros H. destruct (IH H) as [H1 H2]. split; [exact H1|].
  now rewrite H2.
Qed.

Lemma some_selected (obj : Memory) (l : list (string * VmafOption)) :
  existsb (in_name obj) l = true -> selected_entries obj l <> [].
Proof.
  unfold selected_entries.
  induction l as [|o l IH]; cbn [existsb filter map]; [discriminate|].
  destruct (in_name obj o); cbn [orb map]; [discriminate | exact IH].
Qed.

Lemma return_copy_succeeds (s : string) (w : World) :
  allocation_succeeds -> exists w', return_copy s w = (Some s, w').
Proof.
  intros Halloc. unfold return_copy.
  specialize (Halloc (strlen s + 1) w).
  destruct (malloc (strlen s + 1) w) as [dst w']. cbn [fst] in Halloc.
  subst dst. now exists w'.
Qed.

End ScanFacts.

Lemma has_key_absent (k : string) (l : list VmafDictionaryEntry) :
  ~ In k (map key l) -> has_key k l = false.
Proof.
  induction l as [|e l IH]; cbn [has_key map In]; [reflexivity|].
  intros H. rewrite IH by tauto.
  destruct (streq k (key e)) eqn:Hk; [|reflexivity].
  apply streq_true in Hk. exfalso. apply H. now left.
Qed.

Lemma reliable_insertion_succeeds : @insertion_succeeds reliable_externals.
Proof.
  intros d k v w Hfresh. exists w.
  cbn [vmaf_dictionary_set reliable_externals]. unfold dictionary_insert.
  now rewrite has_key_absent.
Qed.

Lemma reliable_allocation_succeeds : @allocation_succeeds reliable_externals.
Proof. intros sz w. reflexivity. Qed.

Section Properties.
Context {E : Externals}.

(** C1, amended. When every feature parameter of the object is at its
    default, [vmaf_feature_name_from_options] inserts nothing, so that the
    dictionary stays [NULL] and the name composed is the base name itself,
    cut at [VMAF_FEATURE_NAME_DEFAULT_BUFFER_SIZE - 1] characters: it is not
    looked up in the aliases, and no option shows in it. *)
Theorem vmaf_feature_name_from_options_all_default
    (name : string) (opts : list VmafOption) (obj : Memory) (w : World) :
  all_default opts obj = true ->
  0 < VMAF_FEATURE_NAME_DEFAULT_BUFFER_SIZE < SIZE_MODULUS ->
  let cut := str_take (VMAF_FEATURE_NAME_DEFAULT_BUFFER_SIZE - 1) name in
  vmaf_feature_name_from_options (Some name) (Some opts) (Some obj) w =
    (if fst (malloc (strlen cut + 1) w) then Some cut else None,
     vmaf_dictionary_free None (snd (malloc (strlen cut + 1) w))) /\
  (strlen name < VMAF_FEATURE_NAME_DEFAULT_BUFFER_SIZE -> cut = name).
Proof.
  intros Hdef HB cut. split.
  - unfold vmaf_feature_name_from_options.
    rewrite scan_options_all_default by assumption. cbn [Z.eqb negb].
    rewrite from_opts_dict_absent by auto. fold cut.
    unfold return_copy. destruct (malloc (strlen cut + 1) w) as [dst w'].
    now destruct dst.
  - intros Hlen. apply str_take_all. lia.
Qed.

(** C2, amended. For a key of the alias table and a buffer of [buf_sz >= 2]
    bytes, a composed string of [buf_sz - 1] characters or more is cut to
    its first [buf_sz - 2] characters: the buffer returned holds exactly
    these, followed by two terminators, and has kept its size; read as a C
    string it is these [buf_sz - 2] characters. *)
Theorem vmaf_feature_name_truncation
    (base k ka : string) (val : double) (buf : list ascii) (buf_sz : Z) :
  key_alias k = Some ka ->
  Z.of_nat (List.length buf) = buf_sz ->
  2 <= buf_sz < SIZE_MODULUS ->
  let s := vmaf_feature_name_alias base ++ "_" ++ ka ++ "_" ++ fmt_g val in
  buf_sz - 1 <= strlen s ->
  vmaf_feature_name base (Some k) val buf buf_sz =
    Some (Ret_buf, (list_ascii_of_string (str_take (buf_sz - 2) s) ++ [NUL; NUL])%list) /\
  strlen (str_take (buf_sz - 2) s) = buf_sz - 2 /\
  List.length (list_ascii_of_string (str_take (buf_sz - 2) s) ++ [NUL; NUL])%list
    = List.length buf /\
  (nul_free s = true ->
   c_string (list_ascii_of_string (str_take (buf_sz - 2) s) ++ [NUL; NUL])%list
     = str_take (buf_sz - 2) s).
Proof.
  intros Hk Hlen HB s Hs.
  assert (Ht : strlen (str_take (buf_sz - 2) s) = buf_sz - 2).
  { rewrite strlen_str_take by lia. lia. }
  split; [|split; [|split]]; [| | |intros Hnul; apply c_string_bytes, nul_free_take, Hnul].
  - rewrite (vmaf_feature_name_closed base k ka val buf buf_sz Hk Hlen) by lia.
    fold s. do 3 f_equal. unfold strlen in Ht.
    replace (List.length buf - String.length (str_take (buf_sz - 2) s))%nat
      with 2%nat by lia.
    reflexivity.
  - exact Ht.
  - rewrite length_app, length_bytes_nat. unfold strlen in Ht.
    cbn [List.length]. lia.
Qed.

(** C3. When the key is absent, or is not a name of the alias table,
    [vmaf_feature_name] returns [name] itself and leaves every byte of the
    buffer as it was. *)
Theorem vmaf_feature_name_unaliased_key
    (name : string) (key : option string) (val : double)
    (buf : list ascii) (buf_sz : Z) :
  key = None \/ (exists k, key = Some k /\ key_alias k = None) ->
  vmaf_feature_name name key val buf buf_sz = Some (Ret_name, buf).
Proof.
  intros [-> | [k [-> Hk]]]; unfold vmaf_feature_name.
  - reflexivity.
  - now rewrite Hk.
Qed.

(** C4, amended. For a key of the alias table, [vmaf_feature_name] returns
    the buffer holding the alias of the base name, ["_"], the alias of the
    key, ["_"] and the value printed with ["%g"], provided the buffer has
    two bytes more than this string has characters; the rest of the buffer
    is zeroed, so that the C string returned is this string. For the key
    [motion_force_zero] and the value [1.0] the string is the alias of the
    base name followed by ["_force_1"]. *)
Theorem vmaf_feature_name_aliased_key
    (base k ka : string) (val : double) (buf : list ascii) (buf_sz : Z) :
  key_alias k = Some ka ->
  Z.of_nat (List.length buf) = buf_sz ->
  buf_sz < SIZE_MODULUS ->
  let s := vmaf_feature_name_alias base ++ "_" ++ ka ++ "_" ++ fmt_g val in
  strlen s + 2 <= buf_sz ->
  vmaf_feature_name base (Some k) val buf buf_sz =
    Some (Ret_buf,
          (list_ascii_of_string s ++ repeat NUL (List.length buf - String.length s))%list) /\
  (nul_free s = true ->
   c_string (list_ascii_of_string s ++ repeat NUL (List.length buf - String.length s))%list
     = s) /\
  (k = "motion_force_zero" -> val = double_1_0 ->
   s = vmaf_feature_name_alias base ++ "_force_1").
Proof.
  intros Hk Hlen HB s Hs. pose proof (strlen_nonneg s). split; [|split].
  - rewrite (vmaf_feature_name_closed base k ka val buf buf_sz Hk Hlen) by lia.
    fold s. rewrite (str_take_all s) by lia. reflexivity.
  - intros Hnul. unfold strlen in Hs.
    replace (List.length buf - String.length s)%nat
      with (S (List.length buf - String.length s - 1)) by lia.
    cbn [repeat]. now apply c_string_bytes.
  - intros -> ->. rewrite key_alias_motion_force_zero in Hk.
    injection Hk as <-. reflexivity.
Qed.

(** C5. Two dictionaries that hold the same entries with unique keys, in
    whatever order, give the same composed name; and that name lists the
    parameters in the order of the option array: it is the alias of the
    base name followed by the suffix of each named option in turn, cut at
    the buffer size. *)
Theorem vmaf_feature_name_from_opts_dict_order
    (name : string) (opts : list VmafOption) (d1 d2 : VmafDictionary) (w : World) :
  Permutation (entry d1) (entry d2) ->
  NoDup (map key (entry d1)) ->
  vmaf_feature_name_from_opts_dict name (Some opts) (Some d1) w =
    vmaf_feature_name_from_opts_dict name (Some opts) (Some d2) w /\
  (0 < VMAF_FEATURE_NAME_DEFAULT_BUFFER_SIZE < SIZE_MODULUS ->
   vmaf_feature_name_from_opts_dict name (Some opts) (Some d1) w =
     return_copy
       (str_take (VMAF_FEATURE_NAME_DEFAULT_BUFFER_SIZE - 1)
          (vmaf_feature_name_alias name ++
           str_concat (map (option_suffix (entry d2)) (named_options opts)))) w).
Proof.
  intros Hp Hnd.
  assert (Heq : vmaf_feature_name_from_opts_dict name (Some opts) (Some d1) w =
                vmaf_feature_name_from_opts_dict name (Some opts) (Some d2) w).
  { unfold vmaf_feature_name_from_opts_dict.
    now rewrite (append_options_perm opts d1 d2 _ Hp Hnd). }
  split; [exact Heq|].
  intros HB. rewrite Heq. apply from_opts_dict_present; [exact HB|].
  eapply Permutation_NoDup; [apply Permutation_map, Hp | exact Hnd].
Qed.

(** C6, amended. Under a dictionary and an allocator that do not fail, and
    with unique names of feature parameters, the name that
    [vmaf_feature_name_from_options] returns is made of a prefix and of
    what each named option contributes, in the order of the array, the
    whole cut at [VMAF_FEATURE_NAME_DEFAULT_BUFFER_SIZE - 1] characters, so
    that what lies beyond the cut is lost. An option contributes nothing
    when it is
    not a feature parameter or when its value equals its default by the
    exact equality of its kind (bool, int or double); it contributes
    ["_"], its alias or name, ["_"] and its value when the value differs.
    So a double named [adm_enhn_gain_limit] with alias [egl] and default
    [1.0] contributes nothing at [1.0] and ["_egl_1.5"] at [1.5]. *)
Theorem vmaf_feature_name_from_options_non_default
    (base : string) (opts : list VmafOption) (obj : Memory) (w : World) :
  insertion_succeeds ->
  allocation_succeeds ->
  NoDup (parameter_names (named_options opts)) ->
  0 < VMAF_FEATURE_NAME_DEFAULT_BUFFER_SIZE < SIZE_MODULUS ->
  fst (vmaf_feature_name_from_options (Some base) (Some opts) (Some obj) w) =
    Some (str_take (VMAF_FEATURE_NAME_DEFAULT_BUFFER_SIZE - 1)
            ((if existsb (in_name obj) (named_options opts)
              then vmaf_feature_name_alias base else base) ++
             str_concat (map (option_contribution obj) (named_options opts)))) /\
  (forall o,
     name o = Some "adm_enhn_gain_limit" ->
     alias o = Some "egl" ->
     type o = VMAF_OPT_TYPE_DOUBLE ->
     val_d (default_val o) = double_1_0 ->
     feature_param o = true ->
     4 <= VMAF_FEATURE_NAME_DEFAULT_BUFFER_SIZE ->
     (load_double (mem_at obj (offset o)) = double_1_0 ->
      option_contribution obj ("adm_enhn_gain_limit", o) = "") /\
     (load_double (mem_at obj (offset o)) = double_1_5 ->
      option_contribution obj ("adm_enhn_gain_limit", o) = "_egl_1.5")).
Proof.
  intros Hins Halloc Hnd HB. split.
  - unfold vmaf_feature_name_from_options.
    destruct (scan_options_closed obj Hins opts None w) as [w1 Hscan];
      [exact Hnd|].
    rewrite Hscan. cbn [Z.eqb negb entries_of app].
    destruct (existsb (in_name obj) (named_options opts)) eqn:Hex.
    + pose proof (some_selected obj _ Hex) as Hsome.
      pose proof (selected_keys_unique obj _ Hnd) as Hkeys.
      pose proof (suffixes_of_selected obj _ Hnd) as Hsuf.
      destruct (selected_entries obj (named_options opts)) as [|e sel];
        [contradiction|].
      rewrite from_opts_dict_present by assumption. cbn [entry].
      rewrite Hsuf.
      match goal with |- context [return_copy ?s w1] =>
        destruct (return_copy_succeeds s w1 Halloc) as [w2 ->] end.
      reflexivity.
    + destruct (no_selected_no_contribution obj _ Hex) as [-> ->].
      rewrite from_opts_dict_absent by auto. rewrite str_app_empty_r.
      match goal with |- context [return_copy ?s w1] =>
        destruct (return_copy_succeeds s w1 Halloc) as [w2 ->] end.
      reflexivity.
  - intros o Hname Halias Htype Hdefault Hparam Hsize.
    unfold option_contribution, in_name, differs_from_default, display_key,
      option_value_text.
    cbn [fst snd]. rewrite Hparam, Htype, Halias, Hdefault. cbn [andb].
    split; intros ->.
    + reflexivity.
    + change (negb (double_eq double_1_0 double_1_5)) with true. cbv iota.
      change (fmt_g double_1_5) with "1.5".
      unfold vsnprintf_at.
      destruct (Z.eqb_spec VMAF_FEATURE_NAME_DEFAULT_BUFFER_SIZE 0); [lia|].
      cbn [str_take append].
      repeat match goal with
             | |- context [?a <=? 0] => destruct (Z.leb_spec a 0); [lia|]
             end.
      reflexivity.
Qed.

(** C7, amended. When the option array or the dictionary is absent,
    [vmaf_feature_name_from_opts_dict] composes the base name alone, cut at
    [VMAF_FEATURE_NAME_DEFAULT_BUFFER_SIZE - 1] characters, whatever the other
    argument is; the absence is no error: [NULL] is returned only when the
    copy cannot be allocated. A base name shorter than the buffer size
    comes back verbatim. *)
Theorem vmaf_feature_name_from_opts_dict_absent
    (name : string) (opts : option (list VmafOption))
    (opts_dict : option VmafDictionary) (w : World) :
  opts = None \/ opts_dict = None ->
  0 < VMAF_FEATURE_NAME_DEFAULT_BUFFER_SIZE < SIZE_MODULUS ->
  let cut := str_take (VMAF_FEATURE_NAME_DEFAULT_BUFFER_SIZE - 1) name in
  vmaf_feature_name_from_opts_dict name opts opts_dict w =
    (if fst (malloc (strlen cut + 1) w) then Some cut else None,
     snd (malloc (strlen cut + 1) w)) /\
  (strlen name < VMAF_FEATURE_NAME_DEFAULT_BUFFER_SIZE -> cut = name).
Proof.
  intros Habs HB cut. split.
  - rewrite from_opts_dict_absent by assumption. fold cut.
    unfold return_copy. destruct (malloc (strlen cut + 1) w) as [dst w'].
    now destruct dst.
  - intros Hlen. apply str_take_all. lia.
Qed.

(** C8. When the scan of [vmaf_feature_name_from_options] has gone through
    the options [pre] and the insertion for the next option fails, the
    function returns [NULL] whatever options follow, after the dictionary
    built so far has been handed to [vmaf_dictionary_free]. *)
Theorem vmaf_feature_name_from_options_insertion_failure
    (base : string) (pre : list VmafOption) (opt : VmafOption) (n : string)
    (rest : list VmafOption) (obj : Memory) (w : World)
    (d0 : option VmafDictionary) (w0 : World)
    (err : Z) (d' : option VmafDictionary) (w' : World) :
  Forall (fun o => name o <> None) pre ->
  scan_options pre obj None w = (0, d0, w0) ->
  name opt = Some n ->
  feature_param opt = true ->
  option_is_default (Some opt) (Some (mem_at obj (offset opt))) = 0 ->
  vmaf_dictionary_set d0 n (option_value_text opt (mem_at obj (offset opt))) 0 w0
    = (err, d', w') ->
  err <> 0 ->
  vmaf_feature_name_from_options (Some base) (Some (pre ++ opt :: rest)%list) (Some obj) w
    = (None, vmaf_dictionary_free d' w').
Proof.
  intros Hpre Hscan Hn Hf Hd Hset Herr.
  unfold vmaf_feature_name_from_options.
  rewrite (scan_options_app obj pre (opt :: rest) Hpre None w d0 w0 Hscan).
  rewrite (scan_options_failing_insertion obj opt n rest d0 w0 err d' w'
             Hn Hf Hd Hset Herr).
  destruct (Z.eqb_spec err 0); [contradiction | reflexivity].
Qed.

(** C9. [vmaf_feature_name_dict_from_provided_features] is all or nothing.
    When the loop has gone through the names [pre] and the next name fails,
    because its canonical name cannot be built or because its insertion
    fails, the dictionary built so far is handed to [vmaf_dictionary_free]
    and the function returns [-EINVAL] in place of a dictionary, whatever
    names follow. And when it returns a dictionary, every name of the list
    has been given a canonical name and inserted with success. *)
Theorem vmaf_feature_name_dict_all_or_nothing
    (opts : option (list VmafOption)) (obj : option Memory) (w : World) :
  (forall pre f rest d0 w0,
     provided_features_loop pre opts obj None w = (Dict_ptr d0, w0) ->
     (forall w1,
        vmaf_feature_name_from_options (Some f) opts obj w0 = (None, w1) ->
        vmaf_feature_name_dict_from_provided_features (pre ++ f :: rest) opts obj w
          = (Int_as_ptr (- EINVAL), vmaf_dictionary_free d0 w1)) /\
     (forall fn w1 err d1 w2,
        vmaf_feature_name_from_options (Some f) opts obj w0 = (Some fn, w1) ->
        vmaf_dictionary_set d0 f fn 0 w1 = (err, d1, w2) ->
        err <> 0 ->
        vmaf_feature_name_dict_from_provided_features (pre ++ f :: rest) opts obj w
          = (Int_as_ptr (- EINVAL), vmaf_dictionary_free d1 (free w2)))) /\
  (forall features d w',
     vmaf_feature_name_dict_from_provided_features features opts obj w
       = (Dict_ptr d, w') ->
     forall pre f rest, features = (pre ++ f :: rest)%list ->
     exists d0 w0 fn w1 d1 w2,
       provided_features_loop pre opts obj None w = (Dict_ptr d0, w0) /\
       vmaf_feature_name_from_options (Some f) opts obj w0 = (Some fn, w1) /\
       vmaf_dictionary_set d0 f fn 0 w1 = (0, d1, w2)).
Proof.
  split.
  - intros pre f rest d0 w0 Hpre.
    unfold vmaf_feature_name_dict_from_provided_features.
    rewrite (provided_features_loop_app opts obj pre (f :: rest) None w d0 w0 Hpre).
    cbn [provided_features_loop]. split.
    + intros w1 ->. reflexivity.
    + intros fn w1 err d1 w2 -> -> Herr.
      destruct (Z.eqb_spec err 0); [contradiction | reflexivity].
  - intros features d w' Hres pre f rest ->.
    unfold vmaf_feature_name_dict_from_provided_features in Hres.
    apply provided_features_loop_prefix in Hres as (d0 & w0 & Hpre & Hrest).
    exists d0, w0. cbn [provided_features_loop] in Hrest.
    destruct (vmaf_feature_name_from_options (Some f) opts obj w0) as [[fn|] w1];
      [|discriminate].
    destruct (vmaf_dictionary_set d0 f fn 0 w1) as [[err d1] w2] eqn:Hset.
    destruct (Z.eqb_spec err 0) as [->|]; [|discriminate].
    now exists fn, w1, d1, w2.
Qed.

(** C10. Without a base name [vmaf_feature_name_from_options] returns
    [NULL] at once: whatever the options and the object are, nothing is
    read, allocated or released. The base name is required just as the
    option array and the object are. *)
Theorem vmaf_feature_name_from_options_null_name
    (base : option string) (opts : option (list VmafOption))
    (obj : option Memory) (w : World) :
  vmaf_feature_name_from_options None opts obj w = (None, w) /\
  vmaf_feature_name_from_options base None obj w = (None, w) /\
  vmaf_feature_name_from_options base opts None w = (None, w).
Proof.
  unfold vmaf_feature_name_from_options. repeat split.
  - now destruct base.
  - now destruct base, opts.
Qed.

End Properties.

(** With a buffer size of [0] the size handed to [snprintf] wraps around to
    [SIZE_MODULUS - 1]: nothing bounds the write any more, and the model
    reports a write past the end of the buffer. *)
Remark vmaf_feature_name_size_zero :
  @vmaf_feature_name heap_externals "adm" (Some "motion_force_zero") double_1_0 [] 0
    = None.
Proof. vm_compute. reflexivity. Qed.

(** The unique keys matter: entries that repeat a key are listed in the
    order of the dictionary. *)
Remark repeated_keys_follow_dictionary_order :
  fst (@vmaf_feature_name_from_opts_dict heap_externals "adm" (Some sample_opts)
         (Some dict_repeated_key_12) heap0) = Some "adm_egl_1_egl_2" /\
  fst (@vmaf_feature_name_from_opts_dict heap_externals "adm" (Some sample_opts)
         (Some dict_repeated_key_21) heap0) = Some "adm_egl_2_egl_1".
Proof. vm_compute. split; reflexivity. Qed.

(** Witness of C1: the gain limit and the viewing distance at their
    defaults. *)
Lemma vmaf_feature_name_from_options_all_default_witness :
  @vmaf_feature_name_from_options heap_externals
     (Some "VMAF_integer_feature_adm2_score") (Some sample_opts)
     (Some (sample_obj double_1_0 3)) heap0
  = (Some "VMAF_integer_feature_adm2_score",
     {| outcomes := []; released := [None] |}).
Proof.
  assert (HB : 0 < @VMAF_FEATURE_NAME_DEFAULT_BUFFER_SIZE heap_externals < SIZE_MODULUS)
    by (vm_compute; split; reflexivity).
  assert (Hd : @all_default heap_externals sample_opts (sample_obj double_1_0 3) = true)
    by (vm_compute; reflexivity).
  rewrite (proj1 (@vmaf_feature_name_from_options_all_default heap_externals
                    "VMAF_integer_feature_adm2_score" sample_opts
                    (sample_obj double_1_0 3) heap0 Hd HB)).
  vm_compute. reflexivity.
Defined.

(** Counterexample to C1 as stated: with every parameter at its default the
    name returned for a metric is the metric's own name, which is not its
    display alias. *)
Lemma all_default_name_is_not_alias :
  @all_default heap_externals sample_opts (sample_obj double_1_0 3) = true /\
  fst (@vmaf_feature_name_from_options heap_externals
         (Some "VMAF_integer_feature_adm2_score") (Some sample_opts)
         (Some (sample_obj double_1_0 3)) heap0)
    = Some "VMAF_integer_feature_adm2_score" /\
  @vmaf_feature_name_alias heap_externals "VMAF_integer_feature_adm2_score"
    = "integer_adm2" /\
  fst (@vmaf_feature_name_from_options heap_externals
         (Some "VMAF_integer_feature_adm2_score") (Some sample_opts)
         (Some (sample_obj double_1_0 3)) heap0)
    <> Some (@vmaf_feature_name_alias heap_externals "VMAF_integer_feature_adm2_score").
Proof. vm_compute. repeat split; try reflexivity. discriminate. Qed.

(** Witness of C2: a buffer of 8 bytes for a string of 11 characters. *)
Lemma vmaf_feature_name_truncation_witness :
  @vmaf_feature_name heap_externals "adm" (Some "motion_force_zero") double_1_0
     (repeat "x"%char 8) 8
  = Some (Ret_buf, (list_ascii_of_string "adm_fo" ++ [NUL; NUL])%list).
Proof.
  assert (HB : 2 <= 8 < SIZE_MODULUS) by (vm_compute; split; [discriminate | reflexivity]).
  assert (Hs : 8 - 1 <= strlen (@vmaf_feature_name_alias heap_externals "adm"
                                  ++ "_" ++ "force" ++ "_" ++ fmt_g double_1_0))
    by (vm_compute; discriminate).
  exact (proj1 (@vmaf_feature_name_truncation heap_externals "adm"
                  "motion_force_zero" "force" double_1_0 (repeat "x"%char 8) 8
                  eq_refl eq_refl HB Hs)).
Defined.

(** Counterexample to C2 as stated: in a buffer of 8 bytes the string
    ["adm_force_1"], which exceeds it, is cut to 6 characters, not to 7. *)
Lemma vmaf_feature_name_truncates_to_two_less :
  8 <= strlen "adm_force_1" /\
  (exists buf',
     @vmaf_feature_name heap_externals "adm" (Some "motion_force_zero") double_1_0
        (repeat "x"%char 8) 8 = Some (Ret_buf, buf') /\
     c_string buf' = "adm_fo" /\
     strlen (c_string buf') <> 8 - 1).
Proof.
  split; [vm_compute; discriminate|].
  eexists. split; [vm_compute; reflexivity|].
  split; [reflexivity | vm_compute; discriminate].
Qed.

(** Witness of C3: an absent key and a key without alias. *)
Lemma vmaf_feature_name_unaliased_key_witness :
  @vmaf_feature_name heap_externals "adm" None double_1_0 ["x"%char] 1
    = Some (Ret_name, ["x"%char]) /\
  @vmaf_feature_name heap_externals "adm" (Some "adm_bogus") double_1_0 ["x"%char] 1
    = Some (Ret_name, ["x"%char]).
Proof.
  split.
  - apply (@vmaf_feature_name_unaliased_key heap_externals). left. reflexivity.
  - apply (@vmaf_feature_name_unaliased_key heap_externals). right.
    exists "adm_bogus". split; reflexivity.
Defined.

(** Witness of C4: a buffer of 13 bytes for a string of 11 characters. *)
Lemma vmaf_feature_name_aliased_key_witness :
  @vmaf_feature_name heap_externals "adm" (Some "motion_force_zero") double_1_0
     (repeat "x"%char 13) 13
  = Some (Ret_buf, (list_ascii_of_string "adm_force_1" ++ [NUL; NUL])%list).
Proof.
  assert (HB : 13 < SIZE_MODULUS) by reflexivity.
  assert (Hs : strlen (@vmaf_feature_name_alias heap_externals "adm"
                         ++ "_" ++ "force" ++ "_" ++ fmt_g double_1_0) + 2 <= 13)
    by (vm_compute; discriminate).
  exact (proj1 (@vmaf_feature_name_aliased_key heap_externals "adm"
                  "motion_force_zero" "force" double_1_0 (repeat "x"%char 13) 13
                  eq_refl eq_refl HB Hs)).
Defined.

(** Counterexample to C4 as stated: the string ["adm_force_1"] and its
    terminator fit a buffer of 12 bytes, and the buffer returned holds
    ["adm_force_"]. *)
Lemma vmaf_feature_name_cuts_string_that_fits :
  strlen "adm_force_1" + 1 <= 12 /\
  (exists buf',
     @vmaf_feature_name heap_externals "adm" (Some "motion_force_zero") double_1_0
        (repeat "x"%char 12) 12 = Some (Ret_buf, buf') /\
     c_string buf' = "adm_force_" /\
     c_string buf' <> "adm_force_1").
Proof.
  split; [vm_compute; discriminate|].
  eexists. split; [vm_compute; reflexivity|].
  split; [reflexivity | vm_compute; discriminate].
Qed.

(** Witness of C5: the entries inserted in reverse order of declaration. *)
Lemma vmaf_feature_name_from_opts_dict_order_witness :
  @vmaf_feature_name_from_opts_dict heap_externals "adm"
     (Some [opt_egl; opt_nvd; opt_end]) (Some dict_reversed) heap0 =
  @vmaf_feature_name_from_opts_dict heap_externals "adm"
     (Some [opt_egl; opt_nvd; opt_end]) (Some dict_declared) heap0.
Proof.
  assert (Hp : Permutation (entry dict_reversed) (entry dict_declared))
    by apply perm_swap.
  assert (Hn : NoDup (map key (entry dict_reversed))).
  { repeat constructor; simpl; intuition discriminate. }
  exact (proj1 (@vmaf_feature_name_from_opts_dict_order heap_externals "adm"
                  [opt_egl; opt_nvd; opt_end] dict_reversed dict_declared heap0
                  Hp Hn)).
Defined.

(** Witness of C6: the gain limit at [1.5], the viewing distance at its
    default. *)
Lemma vmaf_feature_name_from_options_non_default_witness :
  fst (@vmaf_feature_name_from_options reliable_externals (Some "adm")
         (Some sample_opts) (Some (sample_obj double_1_5 3)) tt)
  = Some "adm_egl_1.5".
Proof.
  assert (Hnd : NoDup (@parameter_names reliable_externals (named_options sample_opts))).
  { repeat constructor; simpl; intuition discriminate. }
  assert (HB : 0 < @VMAF_FEATURE_NAME_DEFAULT_BUFFER_SIZE reliable_externals < SIZE_MODULUS)
    by (vm_compute; split; reflexivity).
  rewrite (proj1 (@vmaf_feature_name_from_options_non_default reliable_externals
                    "adm" sample_opts (sample_obj double_1_5 3) tt
                    reliable_insertion_succeeds reliable_allocation_succeeds
                    Hnd HB)).
  vm_compute. reflexivity.
Defined.

(** Counterexample to C6 as stated: under a base name of 255 characters a
    gain limit of [1.5], which differs from its default, is not included:
    the name returned is the one returned at the default [1.0]. *)
Lemma long_base_name_hides_parameter :
  differs_from_default opt_egl
    (mem_at (sample_obj double_1_5 3) (offset opt_egl)) = true /\
  fst (@vmaf_feature_name_from_options reliable_externals
         (Some (str_repeat "a" 255)) (Some sample_opts)
         (Some (sample_obj double_1_5 3)) tt) = Some (str_repeat "a" 255) /\
  fst (@vmaf_feature_name_from_options reliable_externals
         (Some (str_repeat "a" 255)) (Some sample_opts)
         (Some (sample_obj double_1_0 3)) tt) = Some (str_repeat "a" 255).
Proof. vm_compute. repeat split; reflexivity. Qed.

(** The unique names matter: of two feature parameters under one name, the
    one at its default is listed with the value of the other. *)
Remark repeated_names_share_the_value :
  differs_from_default opt_egl_again
    (mem_at (two_doubles_obj double_1_5 double_1_0) (offset opt_egl_again)) = false /\
  fst (@vmaf_feature_name_from_options reliable_externals (Some "adm")
         (Some [opt_egl; opt_egl_again; opt_end])
         (Some (two_doubles_obj double_1_5 double_1_0)) tt)
    = Some "adm_egl_1.5_egl_1.5".
Proof. vm_compute. split; reflexivity. Qed.

(** Witness of C7: no option array. *)
Lemma vmaf_feature_name_from_opts_dict_absent_witness :
  @vmaf_feature_name_from_opts_dict heap_externals "adm" None (Some dict_declared) heap0 =
    (Some "adm", heap0).
Proof.
  assert (HB : 0 < @VMAF_FEATURE_NAME_DEFAULT_BUFFER_SIZE heap_externals < SIZE_MODULUS)
    by (vm_compute; split; reflexivity).
  rewrite (proj1 (@vmaf_feature_name_from_opts_dict_absent heap_externals "adm"
                    None (Some dict_declared) heap0 (or_introl eq_refl) HB)).
  vm_compute. reflexivity.
Defined.

(** Counterexample to C7 as stated: a base name of 300 characters comes back
    as its first 255 characters, not verbatim. *)
Lemma vmaf_feature_name_from_opts_dict_cuts_long_name :
  fst (@vmaf_feature_name_from_opts_dict heap_externals
         (str_repeat "a" 300) None None heap0) = Some (str_repeat "a" 255) /\
  str_repeat "a" 255 <> str_repeat "a" 300.
Proof.
  split.
  - vm_compute. reflexivity.
  - intros H. apply (f_equal String.length) in H. vm_compute in H. discriminate.
Qed.

(** Witness of C8: the insertion of the gain limit succeeds, the insertion
    of the viewing distance fails. *)
Lemma vmaf_feature_name_from_options_insertion_failure_witness :
  @vmaf_feature_name_from_options heap_externals (Some "adm")
     (Some ([opt_egl] ++ opt_nvd :: [opt_end])%list)
     (Some (sample_obj double_1_5 7)) heap_second_fails
  = (None, @vmaf_dictionary_free heap_externals dict_egl
             {| outcomes := []; released := [] |}).
Proof.
  assert (Hpre : Forall (fun o => name o <> None) [opt_egl]).
  { repeat constructor. discriminate. }
  assert (Hscan : @scan_options heap_externals [opt_egl] (sample_obj double_1_5 7)
                    None heap_second_fails
                  = (0, dict_egl, {| outcomes := [false]; released := [] |}))
    by (vm_compute; reflexivity).
  assert (Hdef : option_is_default (Some opt_nvd)
                   (Some (mem_at (sample_obj double_1_5 7) (offset opt_nvd))) = 0)
    by (vm_compute; reflexivity).
  assert (Hset : @vmaf_dictionary_set heap_externals dict_egl "adm_norm_view_dist"
                   (@option_value_text heap_externals opt_nvd
                      (mem_at (sample_obj double_1_5 7) (offset opt_nvd)))
                   0 {| outcomes := [false]; released := [] |}
                 = (- ENOMEM, dict_egl, {| outcomes := []; released := [] |}))
    by (vm_compute; reflexivity).
  assert (Herr : - ENOMEM <> 0) by discriminate.
  exact (@vmaf_feature_name_from_options_insertion_failure heap_externals
           "adm" [opt_egl] opt_nvd "adm_norm_view_dist" [opt_end]
           (sample_obj double_1_5 7) heap_second_fails
           dict_egl {| outcomes := [false]; released := [] |}
           (- ENOMEM) dict_egl {| outcomes := []; released := [] |}
           Hpre Hscan eq_refl eq_refl Hdef Hset Herr).
Defined.

(** Witness of C9: the copy of the second canonical name cannot be
    allocated. *)
Lemma vmaf_feature_name_dict_all_or_nothing_witness :
  fst (@vmaf_feature_name_dict_from_provided_features heap_externals
         (["adm"] ++ "motion" :: [])%list (Some sample_opts)
         (Some (sample_obj double_1_5 3)) heap_fifth_fails)
  = Int_as_ptr (- EINVAL).
Proof.
  assert (Hpre : @provided_features_loop heap_externals ["adm"] (Some sample_opts)
                   (Some (sample_obj double_1_5 3)) None heap_fifth_fails
                 = (Dict_ptr (Some {| entry := [ {| key := "adm"; val := "adm_egl_1.5" |} ] |}),
                    {| outcomes := [true; false]; released := [dict_egl] |}))
    by (vm_compute; reflexivity).
  assert (Hfn : @vmaf_feature_name_from_options heap_externals (Some "motion")
                  (Some sample_opts) (Some (sample_obj double_1_5 3))
                  {| outcomes := [true; false]; released := [dict_egl] |}
                = (None, {| outcomes := []; released := [dict_egl; dict_egl] |}))
    by (vm_compute; reflexivity).
  rewrite (proj1 (proj1 (@vmaf_feature_name_dict_all_or_nothing heap_externals
                           (Some sample_opts) (Some (sample_obj double_1_5 3))
                           heap_fifth_fails)
                    ["adm"] "motion" [] _ _ Hpre) _ Hfn).
  reflexivity.
Defined.


(** * More of [feature_name.c] *)

(** ** The alias table *)

Lemma key_alias_from_in (l : list Alias) (k a : string) :
  key_alias_from l k = Some a -> In {| Alias_name := k; Alias_alias := a |} l.
Proof.
  induction l as [|x l IH]; cbn [key_alias_from In]; [discriminate|].
  destruct (streq k (Alias_name x)) eqn:Hk.
  - apply streq_true in Hk. intros [= <-]. left. subst k. now destruct x.
  - auto.
Qed.

Lemma in_key_alias_from (l : list Alias) (k a : string) :
  NoDup (map Alias_name l) ->
  In {| Alias_name := k; Alias_alias := a |} l -> key_alias_from l k = Some a.
Proof.
  induction l as [|x l IH]; cbn [key_alias_from map In]; [tauto|].
  intros Hnd [Hx | Hin]; inversion Hnd as [|y ys Hy Hnd']; subst.
  - cbn [Alias_name Alias_alias]. now rewrite (proj2 (streq_true k k) eq_refl).
  - destruct (streq k (Alias_name x)) eqn:Hk.
    + apply streq_true in Hk. exfalso. apply Hy. subst k.
      change (Alias_name x)
        with (Alias_name {| Alias_name := Alias_name x; Alias_alias := a |}).
      now apply in_map.
    + auto.
Qed.

(** X1. [key_alias] finds the alias of a key exactly when the table pairs
    the key with that alias: the match is on the whole name, and a key the
    table does not hold has no alias. *)
Theorem key_alias_lookup (k a : string) :
  (key_alias k = Some a <-> In {| Alias_name := k; Alias_alias := a |} alias_list) /\
  (key_alias k = None <-> ~ In k (map Alias_name alias_list)).
Proof.
  assert (Hnd : NoDup (map Alias_name alias_list)).
  { cbn. repeat constructor; cbn; intuition discriminate. }
  split.
  - split; [apply key_alias_from_in | apply (in_key_alias_from _ _ _ Hnd)].
  - unfold key_alias. generalize alias_list as l.
    induction l as [|x l IH]; cbn [key_alias_from map In]; [tauto|].
    destruct (streq k (Alias_name x)) eqn:Hk.
    + apply streq_true in Hk. split; [discriminate | intros H; exfalso; apply H; auto].
    + apply streq_false in Hk. rewrite IH. intuition congruence.
Qed.

(** ** [vmaf_feature_name] on a buffer larger than its declared size *)

Lemma snprintf_zeroed_prefix (N : nat) (tail : list ascii) (n : Z) (s : string) :
  0 < n <= Z.of_nat N ->
  let t := str_take (n - 1) s in
  snprintf (repeat NUL N ++ tail)%list n s =
    Some (list_ascii_of_string t ++ repeat NUL (N - String.length t) ++ tail)%list.
Proof.
  intros Hn t. unfold snprintf.
  destruct (Z.eqb_spec n 0) as [H0|_]; [lia|]. fold t.
  assert (Ht : strlen t <= n - 1).
  { unfold t. rewrite strlen_str_take by lia. lia. }
  unfold strlen in Ht.
  rewrite !length_app, length_bytes_nat, repeat_length. cbn [List.length].
  destruct (Nat.leb_spec (String.length t + 1) (N + List.length tail)) as [Hle|Hgt];
    [|lia].
  rewrite skipn_app, skipn_repeat, repeat_length.
  replace (String.length t + 1 - N)%nat with 0%nat by lia. cbn [skipn].
  rewrite <- app_assoc. do 2 f_equal.
  replace (N - String.length t)%nat with (S (N - (String.length t + 1))) by lia.
  reflexivity.
Qed.

Section FormatterInLargerBuffer.
Context {E : Externals}.

Lemma vmaf_feature_name_in_buffer (base k ka : string) (val : double)
    (buf : list ascii) (buf_sz : Z) :
  key_alias k = Some ka ->
  1 <= buf_sz < SIZE_MODULUS ->
  buf_sz <= Z.of_nat (List.length buf) ->
  let t := str_take (buf_sz - 2)
             (vmaf_feature_name_alias base ++ "_" ++ ka ++ "_" ++ fmt_g val) in
  vmaf_feature_name base (Some k) val buf buf_sz =
    Some (Ret_buf,
          (list_ascii_of_string t ++
           repeat NUL (Z.to_nat buf_sz - String.length t) ++
           skipn (Z.to_nat buf_sz) buf)%list).
Proof.
  intros Hk HB Hlen t. unfold vmaf_feature_name. rewrite Hk.
  unfold memset. destruct (Z.leb_spec buf_sz (Z.of_nat (List.length buf))); [|lia].
  unfold size_sub. rewrite Z.mod_small by lia.
  destruct (Z.eq_dec buf_sz 1) as [H1|H1].
  - subst t. rewrite H1. unfold snprintf.
    change (1 - 1 =? 0) with true. cbv iota.
    rewrite str_take_nonpos by lia.
    cbn [list_ascii_of_string String.length app]. now rewrite Nat.sub_0_r.
  - rewrite snprintf_zeroed_prefix by lia.
    replace (buf_sz - 1 - 1) with (buf_sz - 2) by lia. reflexivity.
Qed.

End FormatterInLargerBuffer.

Lemma c_string_length_bound (t : string) (rest : list ascii) :
  strlen (c_string (list_ascii_of_string t ++ rest)%list) <= strlen t + strlen (c_string rest).
Proof.
  induction t as [|c t IH]; cbn [list_ascii_of_string app c_string].
  - rewrite strlen_empty. lia.
  - rewrite strlen_String. destruct (Ascii.eqb c NUL).
    + rewrite strlen_empty. pose proof (strlen_nonneg t).
      pose proof (strlen_nonneg (c_string rest)). lia.
    + rewrite strlen_String. lia.
Qed.

Section MoreOfTheFormatter.
Context {E : Externals}.

(** X2. For a key of the alias table, [vmaf_feature_name] writes only within
    the first [buf_sz] bytes of the buffer: the buffer keeps its length,
    the bytes from [buf_sz] on are as they were, the byte at [buf_sz - 1]
    is a terminator, and the C string returned has at most [buf_sz - 2]
    characters. *)
Theorem vmaf_feature_name_stays_in_bounds
    (base k ka : string) (val : double) (buf : list ascii) (buf_sz : Z) :
  key_alias k = Some ka ->
  1 <= buf_sz < SIZE_MODULUS ->
  buf_sz <= Z.of_nat (List.length buf) ->
  exists buf',
    vmaf_feature_name base (Some k) val buf buf_sz = Some (Ret_buf, buf') /\
    List.length buf' = List.length buf /\
    skipn (Z.to_nat buf_sz) buf' = skipn (Z.to_nat buf_sz) buf /\
    nth_error buf' (Z.to_nat (buf_sz - 1)) = Some NUL /\
    strlen (c_string buf') <= Z.max 0 (buf_sz - 2).
Proof.
  intros Hk HB Hlen.
  rewrite (vmaf_feature_name_in_buffer base k ka val buf buf_sz Hk HB Hlen).
  set (t := str_take (buf_sz - 2) _).
  assert (Ht : strlen t <= Z.max 0 (buf_sz - 2)).
  { unfold t. destruct (Z.le_gt_cases (buf_sz - 2) 0).
    - rewrite str_take_nonpos by lia. rewrite strlen_empty. lia.
    - rewrite strlen_str_take by lia. lia. }
  pose proof (strlen_nonneg t) as Ht0. unfold strlen in Ht, Ht0.
  eexists. split; [reflexivity|].
  assert (Hcut : (String.length t + 1 <= Z.to_nat buf_sz)%nat) by lia.
  repeat split.
  - rewrite !length_app, length_bytes_nat, repeat_length, length_skipn. lia.
  - rewrite app_assoc, skipn_app.
    rewrite skipn_all2
      by (rewrite length_app, length_bytes_nat, repeat_length; lia).
    rewrite length_app, length_bytes_nat, repeat_length.
    replace (Z.to_nat buf_sz - (String.length t + (Z.to_nat buf_sz - String.length t)))%nat
      with 0%nat by lia.
    reflexivity.
  - rewrite nth_error_app2 by (rewrite length_bytes_nat; lia).
    rewrite nth_error_app1 by (rewrite length_bytes_nat, repeat_length; lia).
    apply nth_error_repeat. rewrite length_bytes_nat. lia.
  - replace (Z.to_nat buf_sz - String.length t)%nat
      with (S (Z.to_nat buf_sz - String.length t - 1)) by lia.
    cbn [repeat app].
    etransitivity; [apply c_string_length_bound|].
    cbn [c_string]. rewrite Ascii.eqb_refl, strlen_empty. unfold strlen. lia.
Qed.

(** X3. For a key of the alias table, what [vmaf_feature_name] leaves in the
    first [buf_sz] bytes of the buffer does not depend on what the buffer
    held before: it is the string, cut at [buf_sz - 2] characters, and
    terminators up to [buf_sz]. *)
Theorem vmaf_feature_name_clears_buffer
    (base k ka : string) (val : double) (buf1 buf2 : list ascii) (buf_sz : Z) :
  key_alias k = Some ka ->
  1 <= buf_sz < SIZE_MODULUS ->
  buf_sz <= Z.of_nat (List.length buf1) ->
  buf_sz <= Z.of_nat (List.length buf2) ->
  exists b1 b2,
    vmaf_feature_name base (Some k) val buf1 buf_sz = Some (Ret_buf, b1) /\
    vmaf_feature_name base (Some k) val buf2 buf_sz = Some (Ret_buf, b2) /\
    firstn (Z.to_nat buf_sz) b1 = firstn (Z.to_nat buf_sz) b2 /\
    c_string b1 = c_string b2.
Proof.
  intros Hk HB Hlen1 Hlen2.
  rewrite (vmaf_feature_name_in_buffer base k ka val buf1 buf_sz Hk HB Hlen1).
  rewrite (vmaf_feature_name_in_buffer base k ka val buf2 buf_sz Hk HB Hlen2).
  set (t := str_take (buf_sz - 2) _).
  assert (Ht : strlen t <= Z.max 0 (buf_sz - 2)).
  { unfold t. destruct (Z.le_gt_cases (buf_sz - 2) 0).
    - rewrite str_take_nonpos by lia. rewrite strlen_empty. lia.
    - rewrite strlen_str_take by lia. lia. }
  pose proof (strlen_nonneg t) as Ht0. unfold strlen in Ht, Ht0.
  do 2 eexists. split; [reflexivity|]. split; [reflexivity|].
  assert (Hfirst : forall tail,
            firstn (Z.to_nat buf_sz)
              (list_ascii_of_string t ++
               repeat NUL (Z.to_nat buf_sz - String.length t) ++ tail)%list =
            (list_ascii_of_string t ++
             repeat NUL (Z.to_nat buf_sz - String.length t))%list).
  { intros tail. rewrite app_assoc, firstn_app.
    rewrite length_app, length_bytes_nat, repeat_length.
    replace (Z.to_nat buf_sz - (String.length t + (Z.to_nat buf_sz - String.length t)))%nat
      with 0%nat by lia.
    cbn [firstn]. rewrite app_nil_r. apply firstn_all2.
    rewrite length_app, length_bytes_nat, repeat_length. lia. }
  split; [now rewrite !Hfirst|].
  replace (Z.to_nat buf_sz - String.length t)%nat
    with (S (Z.to_nat buf_sz - String.length t - 1)) by lia.
  cbn [repeat app].
  assert (Hcs : forall s r1 r2,
            c_string (list_ascii_of_string s ++ NUL :: r1)%list =
            c_string (list_ascii_of_string s ++ NUL :: r2)%list).
  { induction s as [|a s IH]; intros r1 r2; cbn [list_ascii_of_string app c_string].
    - reflexivity.
    - destruct (Ascii.eqb a NUL); [reflexivity | now rewrite (IH r1 r2)]. }
  apply Hcs.
Qed.

End MoreOfTheFormatter.

(** Witness of X2: a buffer of 16 bytes declared as 8. *)
Lemma vmaf_feature_name_stays_in_bounds_witness :
  exists buf',
    @vmaf_feature_name heap_externals "adm" (Some "motion_force_zero") double_1_0
       (repeat "x"%char 16) 8 = Some (Ret_buf, buf') /\
    List.length buf' = List.length (repeat "x"%char 16) /\
    skipn (Z.to_nat 8) buf' = skipn (Z.to_nat 8) (repeat "x"%char 16) /\
    nth_error buf' (Z.to_nat (8 - 1)) = Some NUL /\
    strlen (c_string buf') <= Z.max 0 (8 - 2).
Proof.
  assert (HB : 1 <= 8 < SIZE_MODULUS) by (vm_compute; split; [discriminate | reflexivity]).
  assert (Hlen : 8 <= Z.of_nat (List.length (repeat "x"%char 16)))
    by (vm_compute; discriminate).
  exact (@vmaf_feature_name_stays_in_bounds heap_externals "adm"
           "motion_force_zero" "force" double_1_0 (repeat "x"%char 16) 8
           eq_refl HB Hlen).
Defined.

(** Witness of X3: a buffer of ['x'] and a buffer of ['y']. *)
Lemma vmaf_feature_name_clears_buffer_witness :
  exists b1 b2,
    @vmaf_feature_name heap_externals "adm" (Some "motion_force_zero") double_1_0
       (repeat "x"%char 16) 16 = Some (Ret_buf, b1) /\
    @vmaf_feature_name heap_externals "adm" (Some "motion_force_zero") double_1_0
       (repeat "y"%char 20) 16 = Some (Ret_buf, b2) /\
    firstn (Z.to_nat 16) b1 = firstn (Z.to_nat 16) b2 /\
    c_string b1 = c_string b2.
Proof.
  assert (HB : 1 <= 16 < SIZE_MODULUS) by (vm_compute; split; [discriminate | reflexivity]).
  assert (H1 : 16 <= Z.of_nat (List.length (repeat "x"%char 16)))
    by (vm_compute; discriminate).
  assert (H2 : 16 <= Z.of_nat (List.length (repeat "y"%char 20)))
    by (vm_compute; discriminate).
  exact (@vmaf_feature_name_clears_buffer heap_externals "adm"
           "motion_force_zero" "force" double_1_0
           (repeat "x"%char 16) (repeat "y"%char 20) 16 eq_refl HB H1 H2).
Defined.

(** ** [snprintfcat] *)

Lemma bytes_app (s t : string) :
  list_ascii_of_string (s ++ t) =
    (list_ascii_of_string s ++ list_ascii_of_string t)%list.
Proof.
  induction s as [|c s IH]; cbn [append list_ascii_of_string app];
    [reflexivity | now rewrite IH].
Qed.

Lemma nul_free_app (s t : string) :
  nul_free s = true -> nul_free t = true -> nul_free (s ++ t) = true.
Proof.
  induction s as [|c s IH]; cbn [append nul_free]; [auto|].
  intros H Ht. apply andb_true_iff in H as [Hc Hs].
  now rewrite Hc, IH.
Qed.

Lemma strnlen_bytes_of_string (c : string) (tail : list ascii) :
  nul_free c = true ->
  forall n, 0 <= n ->
    strnlen_bytes (list_ascii_of_string c ++ NUL :: tail)%list n = Z.min (strlen c) n.
Proof.
  induction c as [|a c IH]; cbn [nul_free list_ascii_of_string app strnlen_bytes];
    intros Hc n Hn.
  - rewrite strlen_empty. change (Ascii.eqb NUL NUL) with true.
    rewrite orb_true_r. lia.
  - apply andb_true_iff in Hc as [Ha Hc]. apply negb_true_iff in Ha.
    rewrite Ha, orb_false_r, strlen_String. pose proof (strlen_nonneg c).
    destruct (Z.leb_spec n 0); [lia|].
    rewrite IH by (assumption || lia). lia.
Qed.

Lemma skipn_bytes_app (s : string) (l : list ascii) (n : nat) :
  (String.length s <= n)%nat ->
  skipn n (list_ascii_of_string s ++ l)%list = skipn (n - String.length s) l.
Proof.
  intros H. rewrite skipn_app, length_bytes_nat.
  rewrite skipn_all2 by (rewrite length_bytes_nat; lia). reflexivity.
Qed.

Lemma str_take_take (s : string) :
  forall n m, str_take n (str_take m s) = str_take (Z.min n m) s.
Proof.
  induction s as [|a s IH]; intros n m; cbn [str_take]; [reflexivity|].
  destruct (Z.leb_spec m 0).
  - cbn [str_take]. destruct (Z.leb_spec (Z.min n m) 0); [reflexivity | lia].
  - cbn [str_take]. destruct (Z.leb_spec n 0), (Z.leb_spec (Z.min n m) 0);
      try lia; [reflexivity|].
    rewrite IH. do 2 f_equal. lia.
Qed.

(** X4. [snprintfcat] appends and cuts: on an array that holds fewer than
    [buf_sz] characters it leaves the first [buf_sz - 1] characters of the
    old text followed by the new one. So the old text is kept, a text that
    fits is appended whole, and a full array is left as it is. *)
Theorem snprintfcat_appends_and_cuts (c t : string) (buf_sz : Z) :
  0 < buf_sz < SIZE_MODULUS ->
  strlen c <= buf_sz - 1 ->
  snprintfcat c buf_sz t = str_take (buf_sz - 1) (c ++ t) /\
  strlen (snprintfcat c buf_sz t) <= buf_sz - 1 /\
  str_take (strlen c) (snprintfcat c buf_sz t) = c /\
  (strlen c + strlen t <= buf_sz - 1 -> snprintfcat c buf_sz t = c ++ t) /\
  (strlen c = buf_sz - 1 -> snprintfcat c buf_sz t = c).
Proof.
  intros HB Hc. pose proof (strlen_nonneg c). pose proof (strlen_nonneg t).
  assert (Heq : snprintfcat c buf_sz t = str_take (buf_sz - 1) (c ++ t)).
  { rewrite <- (snprintfcat_take buf_sz c t HB).
    now rewrite (str_take_all c) by lia. }
  rewrite Heq. repeat split.
  - rewrite strlen_str_take by lia. lia.
  - rewrite str_take_take, Z.min_l by lia.
    rewrite str_take_app, (str_take_all c) by lia.
    rewrite str_take_nonpos by lia. apply str_app_empty_r.
  - intros Hfit. apply str_take_all. rewrite strlen_app. lia.
  - intros Hfull. rewrite str_take_app, (str_take_all c) by lia.
    rewrite str_take_nonpos by lia. apply str_app_empty_r.
Qed.

(** X5. The value [snprintfcat] returns tells whether the text was cut: on
    an array that holds fewer than [buf_sz] characters it is below [buf_sz]
    exactly when the new text was appended whole. *)
Theorem snprintfcat_result_tells_cut (c t : string) (buf_sz : Z) :
  0 < buf_sz < SIZE_MODULUS ->
  strlen c <= buf_sz - 1 ->
  strlen c + strlen t < SIZE_MODULUS ->
  snprintfcat_result c buf_sz t = strlen c + strlen t /\
  (snprintfcat_result c buf_sz t < buf_sz <-> snprintfcat c buf_sz t = c ++ t).
Proof.
  intros HB Hc Hsum. pose proof (strlen_nonneg c). pose proof (strlen_nonneg t).
  assert (Hres : snprintfcat_result c buf_sz t = strlen c + strlen t).
  { unfold snprintfcat_result, strnlen. rewrite Z.min_l by lia.
    rewrite Z.mod_small by lia. lia. }
  split; [exact Hres|]. rewrite Hres.
  assert (Heq : snprintfcat c buf_sz t = str_take (buf_sz - 1) (c ++ t)).
  { rewrite <- (snprintfcat_take buf_sz c t HB).
    now rewrite (str_take_all c) by lia. }
  rewrite Heq. split.
  - intros Hlt. apply str_take_all. rewrite strlen_app. lia.
  - intros Hwhole. apply (f_equal strlen) in Hwhole.
    rewrite strlen_str_take, strlen_app in Hwhole by lia. lia.
Qed.

(** X6. Byte by byte, [snprintfcat] stays within the first [buf_sz] bytes of
    an array that holds a string of fewer than [buf_sz] characters: it
    leaves the array holding the string [snprintfcat] computes on strings,
    terminated, with its length and its bytes from [buf_sz] on unchanged;
    and a text without NUL keeps the string without NUL. *)
Theorem snprintfcat_bytes_refines (c s : string) (tail : list ascii) (buf_sz : Z) :
  0 < buf_sz < SIZE_MODULUS ->
  nul_free c = true ->
  strlen c <= buf_sz - 1 ->
  buf_sz <= Z.of_nat (List.length (list_ascii_of_string c ++ NUL :: tail)%list) ->
  exists tail',
    snprintfcat_bytes (list_ascii_of_string c ++ NUL :: tail)%list buf_sz s =
      Some (list_ascii_of_string (snprintfcat c buf_sz s) ++ NUL :: tail')%list /\
    List.length (list_ascii_of_string (snprintfcat c buf_sz s) ++ NUL :: tail')%list =
      List.length (list_ascii_of_string c ++ NUL :: tail)%list /\
    skipn (Z.to_nat buf_sz)
      (list_ascii_of_string (snprintfcat c buf_sz s) ++ NUL :: tail')%list =
      skipn (Z.to_nat buf_sz) (list_ascii_of_string c ++ NUL :: tail)%list /\
    (nul_free s = true -> nul_free (snprintfcat c buf_sz s) = true).
Proof.
  intros HB Hnul Hc Hcap.
  pose proof (strlen_nonneg c) as Hc0.
  set (t := str_take (buf_sz - strlen c - 1) s).
  assert (Hcat : snprintfcat c buf_sz s = c ++ t).
  { unfold snprintfcat, strnlen, vsnprintf_at, size_sub.
    rewrite Z.min_l by lia. rewrite Z.mod_small by lia.
    destruct (Z.eqb_spec (buf_sz - strlen c) 0); [lia|].
    now rewrite (str_take_all c) by lia. }
  assert (Ht : strlen t <= buf_sz - strlen c - 1).
  { unfold t. rewrite strlen_str_take by lia. lia. }
  pose proof (strlen_nonneg t) as Ht0.
  rewrite length_app, length_bytes_nat in Hcap. cbn [List.length] in Hcap.
  unfold strlen in Hc, Hc0, Ht, Ht0.
  exists (skipn (String.length t) tail).
  rewrite Hcat, bytes_app, <- app_assoc.
  repeat split.
  - unfold snprintfcat_bytes.
    rewrite strnlen_bytes_of_string by (assumption || lia).
    unfold strlen. rewrite Z.min_l by lia.
    unfold vsnprintf_bytes, size_sub. rewrite Z.mod_small by lia.
    destruct (Z.eqb_spec (buf_sz - Z.of_nat (String.length c)) 0); [lia|].
    fold (strlen c). fold t.
    rewrite !length_app, !length_bytes_nat. cbn [List.length].
    unfold strlen. rewrite Nat2Z.id.
    destruct (Nat.leb_spec (String.length c + (String.length t + 1))
                (String.length c + S (List.length tail))) as [_|Hgt]; [|lia].
    rewrite firstn_app, length_bytes_nat, Nat.sub_diag. cbn [firstn].
    rewrite firstn_all2 by (rewrite length_bytes_nat; lia).
    rewrite app_nil_r.
    rewrite skipn_app, length_bytes_nat.
    rewrite skipn_all2 by (rewrite length_bytes_nat; lia).
    replace (String.length c + (String.length t + 1) - String.length c)%nat
      with (S (String.length t)) by lia.
    cbn [skipn app]. rewrite <- app_assoc. reflexivity.
  - rewrite !length_app, !length_bytes_nat. cbn [List.length].
    rewrite length_skipn. lia.
  - rewrite !skipn_bytes_app by lia.
    replace (Z.to_nat buf_sz - String.length c - String.length t)%nat
      with (S (Z.to_nat buf_sz - String.length c - String.length t - 1)) by lia.
    replace (Z.to_nat buf_sz - String.length c)%nat
      with (S (Z.to_nat buf_sz - String.length c - 1)) by lia.
    cbn [skipn]. rewrite skipn_skipn. f_equal. lia.
  - intros Hs. apply nul_free_app; [assumption|]. now apply nul_free_take.
Qed.

(** Witness of X4: a text that does not fit what is left of the array. *)
Lemma snprintfcat_appends_and_cuts_witness :
  snprintfcat "adm" 8 "_egl_1.5" = str_take (8 - 1) ("adm" ++ "_egl_1.5").
Proof.
  assert (HB : 0 < 8 < SIZE_MODULUS) by (vm_compute; split; reflexivity).
  assert (Hc : strlen "adm" <= 8 - 1) by (vm_compute; discriminate).
  exact (proj1 (snprintfcat_appends_and_cuts "adm" "_egl_1.5" 8 HB Hc)).
Defined.

(** Witness of X5: the same text. *)
Lemma snprintfcat_result_tells_cut_witness :
  snprintfcat_result "adm" 8 "_egl_1.5" = strlen "adm" + strlen "_egl_1.5".
Proof.
  assert (HB : 0 < 8 < SIZE_MODULUS) by (vm_compute; split; reflexivity).
  assert (Hc : strlen "adm" <= 8 - 1) by (vm_compute; discriminate).
  assert (Hs : strlen "adm" + strlen "_egl_1.5" < SIZE_MODULUS) by reflexivity.
  exact (proj1 (snprintfcat_result_tells_cut "adm" "_egl_1.5" 8 HB Hc Hs)).
Defined.

(** Witness of X6: an array of 9 bytes that holds ["adm"]. *)
Lemma snprintfcat_bytes_refines_witness :
  exists tail',
    snprintfcat_bytes (list_ascii_of_string "adm" ++ NUL :: repeat NUL 5)%list 8 "_egl_1.5" =
      Some (list_ascii_of_string (snprintfcat "adm" 8 "_egl_1.5") ++ NUL :: tail')%list.
Proof.
  assert (HB : 0 < 8 < SIZE_MODULUS) by (vm_compute; split; reflexivity).
  assert (Hc : strlen "adm" <= 8 - 1) by (vm_compute; discriminate).
  assert (Hcap : 8 <= Z.of_nat (List.length
                   (list_ascii_of_string "adm" ++ NUL :: repeat NUL 5)%list))
    by (vm_compute; discriminate).
  destruct (snprintfcat_bytes_refines "adm" "_egl_1.5" (repeat NUL 5) 8
              HB eq_refl Hc Hcap) as [tail' [H _]].
  exists tail'. exact H.
Defined.

(** ** [vmaf_feature_name_from_opts_dict] on any dictionary *)

Lemma no_entry_under (n : string) (l : list VmafDictionaryEntry) :
  dict_lookup n l = None -> filter (fun e => streq n (key e)) l = [].
Proof.
  induction l as [|e l IH]; cbn [dict_lookup filter]; [reflexivity|].
  destruct (streq n (key e)); [discriminate | exact IH].
Qed.

Section MoreOfTheComposer.
Context {E : Externals}.

Lemma append_entries_general (opt : VmafOption) (n : string) (buf_sz : Z) :
  0 < buf_sz < SIZE_MODULUS ->
  forall l s,
    append_entries opt n l buf_sz (str_take (buf_sz - 1) s) =
    str_take (buf_sz - 1) (s ++ matching_suffix l (n, opt)).
Proof.
  intros HB. unfold matching_suffix. cbn [fst snd].
  induction l as [|e l IH]; intros s; cbn [append_entries filter map str_concat].
  - destruct (feature_param opt); now rewrite str_app_empty_r.
  - destruct (streq n (key e)); cbn [negb].
    + destruct (feature_param opt) eqn:Hf; cbn [negb map str_concat].
      * rewrite snprintfcat_take by assumption. rewrite IH.
        now rewrite str_app_assoc.
      * apply IH.
    + apply IH.
Qed.

Lemma append_options_general (d : VmafDictionary) (buf_sz : Z) :
  0 < buf_sz < SIZE_MODULUS ->
  forall opts s,
    append_options opts d buf_sz (str_take (buf_sz - 1) s) =
    str_take (buf_sz - 1)
      (s ++ str_concat (map (matching_suffix (entry d)) (named_options opts))).
Proof.
  intros HB. induction opts as [|opt rest IH]; intros s;
    cbn [append_options named_options].
  - cbn [map str_concat]. now rewrite str_app_empty_r.
  - destruct (name opt) as [n|]; cbn [map str_concat].
    + rewrite append_entries_general by assumption. rewrite IH.
      now rewrite str_app_assoc.
    + now rewrite str_app_empty_r.
Qed.

Lemma from_opts_dict_general (base : string) (opts : list VmafOption)
    (d : VmafDictionary) (w : World) :
  0 < VMAF_FEATURE_NAME_DEFAULT_BUFFER_SIZE < SIZE_MODULUS ->
  vmaf_feature_name_from_opts_dict base (Some opts) (Some d) w =
    return_copy
      (str_take (VMAF_FEATURE_NAME_DEFAULT_BUFFER_SIZE - 1)
         (vmaf_feature_name_alias base ++
          str_concat (map (matching_suffix (entry d)) (named_options opts)))) w.
Proof.
  intros HB. unfold vmaf_feature_name_from_opts_dict, return_copy.
  rewrite snprintfcat_empty by assumption.
  rewrite append_options_general by assumption.
  match goal with |- context [str_take _ ?x] =>
    destruct (copy_of_local_buffer _ x HB) as [-> ->] end.
  reflexivity.
Qed.

(** Whatever its arguments, the function returns the copy of a string of
    fewer than [VMAF_FEATURE_NAME_DEFAULT_BUFFER_SIZE] characters. *)
Lemma from_opts_dict_bounded (base : string) (opts : option (list VmafOption))
    (opts_dict : option VmafDictionary) (w : World) :
  0 < VMAF_FEATURE_NAME_DEFAULT_BUFFER_SIZE < SIZE_MODULUS ->
  exists s,
    strlen s <= VMAF_FEATURE_NAME_DEFAULT_BUFFER_SIZE - 1 /\
    vmaf_feature_name_from_opts_dict base opts opts_dict w = return_copy s w.
Proof.
  intros HB.
  assert (Hcut : forall x,
            strlen (str_take (VMAF_FEATURE_NAME_DEFAULT_BUFFER_SIZE - 1) x)
              <= VMAF_FEATURE_NAME_DEFAULT_BUFFER_SIZE - 1).
  { intros x. rewrite strlen_str_take by lia. lia. }
  destruct opts as [os|]; [destruct opts_dict as [d|]|].
  - eexists. split; [|now apply from_opts_dict_general]. apply Hcut.
  - eexists. split; [|apply from_opts_dict_absent; auto]. apply Hcut.
  - eexists. split; [|apply from_opts_dict_absent; auto]. apply Hcut.
Qed.

Lemma return_copy_some (s r : string) (w : World) :
  fst (return_copy s w) = Some r -> r = s.
Proof.
  unfold return_copy. destruct (malloc (strlen s + 1) w) as [dst w'].
  destruct dst; cbn [negb fst]; congruence.
Qed.

Lemma append_options_sentinel (d : VmafDictionary) (buf_sz : Z)
    (e : VmafOption) (rest rest' : list VmafOption) :
  name e = None ->
  forall pre buf,
    append_options (pre ++ e :: rest) d buf_sz buf =
    append_options (pre ++ e :: rest') d buf_sz buf.
Proof.
  intros He. induction pre as [|o pre IH]; intros buf; cbn [app append_options].
  - now rewrite He.
  - destruct (name o); [apply IH | reflexivity].
Qed.

Lemma scan_options_sentinel (obj : Memory) (e : VmafOption)
    (rest rest' : list VmafOption) :
  name e = None ->
  forall pre d w,
    scan_options (pre ++ e :: rest) obj d w =
    scan_options (pre ++ e :: rest') obj d w.
Proof.
  intros He. induction pre as [|o pre IH]; intros d w; cbn [app scan_options].
  - now rewrite He.
  - destruct (name o); [|reflexivity].
    destruct (negb (feature_param o)); [apply IH|].
    destruct (negb (option_is_default _ _ =? 0)); [apply IH|].
    destruct (vmaf_dictionary_set d s _ 0 w) as [[err d'] w'].
    destruct (negb (err =? 0)); [reflexivity | apply IH].
Qed.

(** X7. Whatever the dictionary holds, the name composed is the alias of
    the base name followed, for each named option in the order of the
    array, by one piece ["_"], alias or name, ["_"], value for each entry
    under the name of the option, in the order of the dictionary, when the
    option is a feature parameter; the whole is cut at the buffer size. *)
Theorem vmaf_feature_name_from_opts_dict_composes
    (base : string) (opts : list VmafOption) (d : VmafDictionary) (w : World) :
  0 < VMAF_FEATURE_NAME_DEFAULT_BUFFER_SIZE < SIZE_MODULUS ->
  vmaf_feature_name_from_opts_dict base (Some opts) (Some d) w =
    return_copy
      (str_take (VMAF_FEATURE_NAME_DEFAULT_BUFFER_SIZE - 1)
         (vmaf_feature_name_alias base ++
          str_concat (map (matching_suffix (entry d)) (named_options opts)))) w /\
  (forall o, NoDup (map key (entry d)) ->
     matching_suffix (entry d) o = option_suffix (entry d) o).
Proof.
  intros HB. split; [now apply from_opts_dict_general|].
  intros [n o] Hnd. unfold matching_suffix, option_suffix. cbn [fst snd].
  destruct (feature_param o); [|reflexivity].
  induction (entry d) as [|e l IH]; cbn [filter map str_concat dict_lookup];
    [reflexivity|].
  inversion Hnd as [|x xs Hx Hnd']; subst.
  destruct (streq n (key e)) eqn:Hk.
  - apply streq_true in Hk. subst n. cbn [map str_concat].
    assert (Hno : dict_lookup (key e) l = None) by now apply dict_lookup_none.
    rewrite (IH Hnd'), Hno. now rewrite str_app_empty_r.
  - now apply IH.
Qed.

(** X8. A name returned by [vmaf_feature_name_from_opts_dict] has fewer
    than [VMAF_FEATURE_NAME_DEFAULT_BUFFER_SIZE] characters, whatever the
    base name, the options and the dictionary are, and the allocation
    requested for it is of one byte more than it has characters. *)
Theorem vmaf_feature_name_from_opts_dict_length
    (base : string) (opts : option (list VmafOption))
    (opts_dict : option VmafDictionary) (w : World) (r : string) :
  0 < VMAF_FEATURE_NAME_DEFAULT_BUFFER_SIZE < SIZE_MODULUS ->
  fst (vmaf_feature_name_from_opts_dict base opts opts_dict w) = Some r ->
  strlen r <= VMAF_FEATURE_NAME_DEFAULT_BUFFER_SIZE - 1 /\
  vmaf_feature_name_from_opts_dict base opts opts_dict w =
    (Some r, snd (malloc (strlen r + 1) w)).
Proof.
  intros HB Hr.
  destruct (from_opts_dict_bounded base opts opts_dict w HB) as [s [Hs Heq]].
  rewrite Heq in *. apply return_copy_some in Hr as Hrs. subst r.
  split; [exact Hs|].
  unfold return_copy in *. destruct (malloc (strlen s + 1) w) as [dst w'].
  destruct dst; cbn [negb fst snd] in *; [reflexivity | discriminate].
Qed.

(** X9. When no entry of the dictionary is under the name of a feature
    parameter of the array, as when the dictionary is empty or holds other
    keys only, the name composed is the alias of the base name alone. *)
Theorem vmaf_feature_name_from_opts_dict_no_match
    (base : string) (opts : list VmafOption) (d : VmafDictionary) (w : World) :
  0 < VMAF_FEATURE_NAME_DEFAULT_BUFFER_SIZE < SIZE_MODULUS ->
  (forall o, In o (named_options opts) -> feature_param (snd o) = true ->
     dict_lookup (fst o) (entry d) = None) ->
  vmaf_feature_name_from_opts_dict base (Some opts) (Some d) w =
    return_copy
      (str_take (VMAF_FEATURE_NAME_DEFAULT_BUFFER_SIZE - 1)
         (vmaf_feature_name_alias base)) w.
Proof.
  intros HB Hno. rewrite from_opts_dict_general by assumption.
  assert (Hempty : str_concat (map (matching_suffix (entry d)) (named_options opts)) = "").
  { induction (named_options opts) as [|o l IH]; cbn [map str_concat]; [reflexivity|].
    rewrite IH by (intros o' Hin; apply Hno; now right).
    rewrite str_app_empty_r. unfold matching_suffix.
    destruct (feature_param (snd o)) eqn:Hf; [|reflexivity].
    now rewrite (no_entry_under (fst o) (entry d) (Hno o (or_introl eq_refl) Hf)). }
  now rewrite Hempty, str_app_empty_r.
Qed.

(** X10. Both loops stop at the first option without a name: what follows
    it in the array changes neither the name composed from a dictionary
    nor the result of [vmaf_feature_name_from_options]. *)
Theorem options_after_the_end_are_ignored
    (base : string) (pre : list VmafOption) (e : VmafOption)
    (rest rest' : list VmafOption) (opts_dict : option VmafDictionary)
    (obj : option Memory) (w : World) :
  name e = None ->
  vmaf_feature_name_from_opts_dict base (Some (pre ++ e :: rest)%list) opts_dict w =
    vmaf_feature_name_from_opts_dict base (Some (pre ++ e :: rest')%list) opts_dict w /\
  vmaf_feature_name_from_options (Some base) (Some (pre ++ e :: rest)%list) obj w =
    vmaf_feature_name_from_options (Some base) (Some (pre ++ e :: rest')%list) obj w.
Proof.
  intros He.
  assert (Hdict : forall od w',
            vmaf_feature_name_from_opts_dict base (Some (pre ++ e :: rest)%list) od w' =
            vmaf_feature_name_from_opts_dict base (Some (pre ++ e :: rest')%list) od w').
  { intros od w'. unfold vmaf_feature_name_from_opts_dict.
    destruct od as [d|]; [|reflexivity].
    now rewrite (append_options_sentinel d _ e rest rest' He). }
  split; [apply Hdict|].
  unfold vmaf_feature_name_from_options. destruct obj as [ob|]; [|reflexivity].
  rewrite (scan_options_sentinel ob e rest rest' He).
  destruct (scan_options (pre ++ e :: rest') ob None w) as [[err d] w1].
  destruct (negb (err =? 0)); [reflexivity|].
  now rewrite Hdict.
Qed.

End MoreOfTheComposer.

(** ** [option_is_default] and the scan on any dictionary *)

(** X11. On doubles the comparison with the default is the one of [==]: an
    option whose default or value is a NaN is never at its default, and
    the two zeros are the same default. *)
Theorem option_is_default_nan_and_zero (o : VmafOption) (m : Memory) :
  type o = VMAF_OPT_TYPE_DOUBLE ->
  (double_is_nan (val_d (default_val o)) = true \/
   double_is_nan (load_double m) = true ->
   option_is_default (Some o) (Some m) = 0) /\
  (double_is_zero (val_d (default_val o)) = true ->
   double_is_zero (load_double m) = true ->
   option_is_default (Some o) (Some m) = 1).
Proof.
  intros Ht. unfold option_is_default. rewrite Ht. unfold double_eq. split.
  - intros [H | H]; rewrite H; cbn [negb andb int_of_bool];
      [reflexivity | now rewrite andb_false_r].
  - intros Hd Hv. rewrite Hd, Hv.
    assert (Hnan : forall x, double_is_zero x = true -> double_is_nan x = false).
    { intros x. unfold double_is_zero, double_is_nan.
      intros H. apply andb_true_iff in H as [He _].
      apply Z.eqb_eq in He. rewrite He. reflexivity. }
    rewrite (Hnan _ Hd), (Hnan _ Hv). cbn [negb andb].
    now rewrite orb_true_r.
Qed.

Section MoreOfTheScan.
Context {E : Externals}.

Lemma scan_options_as_insertions (obj : Memory) (opts : list VmafOption) :
  forall d w,
    scan_options opts obj d w =
    insert_all (selected_entries obj (named_options opts)) d w.
Proof.
  unfold selected_entries, in_name.
  induction opts as [|opt rest IH]; intros d w;
    cbn [scan_options named_options]; [reflexivity|].
  destruct (name opt) as [n|]; [|reflexivity].
  cbn [filter map fst snd]. rewrite option_is_default_differs.
  destruct (feature_param opt); cbn [negb andb]; [|apply IH].
  destruct (differs_from_default opt (mem_at obj (offset opt)));
    cbn [negb map insert_all name_entry key val fst snd]; [|apply IH].
  destruct (vmaf_dictionary_set d n _ 0 w) as [[err d'] w'].
  destruct (negb (err =? 0)); [reflexivity | apply IH].
Qed.

(** X12. Whatever the dictionary does, the scan of
    [vmaf_feature_name_from_options] is the insertion, one after the other
    and up to the first failure, of the name and value of each named
    feature parameter that differs from its default, in the order of the
    array: no other option reaches the dictionary. *)
Theorem scan_options_inserts_selected (obj : Memory) (opts : list VmafOption)
    (d : option VmafDictionary) (w : World) :
  scan_options opts obj d w =
    insert_all (selected_entries obj (named_options opts)) d w /\
  (forall e, In e (selected_entries obj (named_options opts)) ->
     exists o, In o (named_options opts) /\
       feature_param (snd o) = true /\
       differs_from_default (snd o) (mem_at obj (offset (snd o))) = true /\
       e = name_entry obj o).
Proof.
  split; [apply scan_options_as_insertions|].
  intros e He. unfold selected_entries in He.
  apply in_map_iff in He as [o [<- Ho]]. apply filter_In in Ho as [Hin Hsel].
  unfold in_name in Hsel. apply andb_true_iff in Hsel as [Hf Hd].
  now exists o.
Qed.

(** X13. A name returned by [vmaf_feature_name_from_options] has fewer
    than [VMAF_FEATURE_NAME_DEFAULT_BUFFER_SIZE] characters, whatever the
    dictionary and the allocator do. *)
Theorem vmaf_feature_name_from_options_length
    (base : option string) (opts : option (list VmafOption))
    (obj : option Memory) (w : World) (r : string) :
  0 < VMAF_FEATURE_NAME_DEFAULT_BUFFER_SIZE < SIZE_MODULUS ->
  fst (vmaf_feature_name_from_options base opts obj w) = Some r ->
  strlen r <= VMAF_FEATURE_NAME_DEFAULT_BUFFER_SIZE - 1.
Proof.
  intros HB. unfold vmaf_feature_name_from_options.
  destruct base as [nm|]; [|discriminate].
  destruct opts as [os|]; [|discriminate].
  destruct obj as [ob|]; [|discriminate].
  destruct (scan_options os ob None w) as [[err d] w1].
  destruct (negb (err =? 0)); [discriminate|].
  destruct (from_opts_dict_bounded nm (Some os) d w1 HB) as [s [Hs Heq]].
  rewrite Heq. destruct (return_copy s w1) as [out w2] eqn:Hcopy.
  cbn [fst]. intros ->.
  assert (Hr : fst (return_copy s w1) = Some r) by now rewrite Hcopy.
  apply return_copy_some in Hr. now subst r.
Qed.

Lemma same_field_same_entry (obj1 obj2 : Memory) (o : string * VmafOption) :
  (feature_param (snd o) = true ->
   forall k, 0 <= k < field_width (type (snd o)) ->
     load_u8 (mem_at obj1 (offset (snd o))) k =
     load_u8 (mem_at obj2 (offset (snd o))) k) ->
  in_name obj1 o = in_name obj2 o /\
  (in_name obj1 o = true -> name_entry obj1 o = name_entry obj2 o).
Proof.
  intros Hsame. unfold in_name.
  destruct (feature_param (snd o)); cbn [andb]; [|split; [reflexivity | discriminate]].
  specialize (Hsame eq_refl).
  unfold differs_from_default, name_entry, option_value_text.
  destruct (type (snd o)); cbn [field_width] in Hsame.
  - unfold load_bool. rewrite (Hsame 0) by lia. now split.
  - unfold load_int.
    rewrite (Hsame 0), (Hsame 1), (Hsame 2), (Hsame 3) by lia. now split.
  - unfold load_double.
    rewrite (Hsame 0), (Hsame 1), (Hsame 2), (Hsame 3),
            (Hsame 4), (Hsame 5), (Hsame 6), (Hsame 7) by lia. now split.
  - now split.
Qed.

Lemma same_fields_same_entries (opts : list VmafOption) (obj1 obj2 : Memory) :
  same_fields opts obj1 obj2 ->
  selected_entries obj1 (named_options opts) = selected_entries obj2 (named_options opts).
Proof.
  unfold same_fields, selected_entries.
  induction (named_options opts) as [|o l IH]; intros Hsame; [reflexivity|].
  assert (IH' := IH (fun o' Hin => Hsame o' (or_intror Hin))).
  destruct (same_field_same_entry obj1 obj2 o (Hsame o (or_introl eq_refl)))
    as [Hin Hentry].
  cbn [filter]. rewrite <- Hin.
  destruct (in_name obj1 o); cbn [map]; [|exact IH'].
  now rewrite (Hentry eq_refl), IH'.
Qed.

(** X14. [vmaf_feature_name_from_options] reads of the object only the
    fields of the named feature parameters, each over the width of its
    kind: two objects that hold the same bytes there give the same
    result. *)
Theorem vmaf_feature_name_from_options_reads_fields
    (base : option string) (opts : list VmafOption) (obj1 obj2 : Memory) (w : World) :
  same_fields opts obj1 obj2 ->
  vmaf_feature_name_from_options base (Some opts) (Some obj1) w =
    vmaf_feature_name_from_options base (Some opts) (Some obj2) w.
Proof.
  intros Hsame. unfold vmaf_feature_name_from_options.
  destruct base as [nm|]; [|reflexivity].
  rewrite !scan_options_as_insertions.
  now rewrite (same_fields_same_entries opts obj1 obj2 Hsame).
Qed.

End MoreOfTheScan.

(** ** [vmaf_feature_name_dict_from_provided_features] *)

Section MoreOfTheBatch.
Context {E : Externals}.

Lemma from_options_closed (base : string) (opts : list VmafOption)
    (obj : Memory) (w : World) :
  insertion_succeeds ->
  allocation_succeeds ->
  NoDup (parameter_names (named_options opts)) ->
  0 < VMAF_FEATURE_NAME_DEFAULT_BUFFER_SIZE < SIZE_MODULUS ->
  exists w',
    vmaf_feature_name_from_options (Some base) (Some opts) (Some obj) w =
      (Some (canonical_name base opts obj), w').
Proof.
  intros Hins Halloc Hnd HB. unfold vmaf_feature_name_from_options, canonical_name.
  destruct (scan_options_closed obj Hins opts None w) as [w1 Hscan];
    [exact Hnd|].
  rewrite Hscan. cbn [Z.eqb negb entries_of app].
  destruct (existsb (in_name obj) (named_options opts)) eqn:Hex.
  - pose proof (some_selected obj _ Hex) as Hsome.
    pose proof (selected_keys_unique obj _ Hnd) as Hkeys.
    pose proof (suffixes_of_selected obj _ Hnd) as Hsuf.
    destruct (selected_entries obj (named_options opts)) as [|e sel];
      [contradiction|].
    rewrite from_opts_dict_present by assumption. cbn [entry].
    rewrite Hsuf.
    match goal with |- context [return_copy ?s w1] =>
      destruct (return_copy_succeeds s w1 Halloc) as [w2 ->] end.
    eexists. reflexivity.
  - destruct (no_selected_no_contribution obj _ Hex) as [-> ->].
    rewrite from_opts_dict_absent by auto. rewrite str_app_empty_r.
    match goal with |- context [return_copy ?s w1] =>
      destruct (return_copy_succeeds s w1 Halloc) as [w2 ->] end.
    eexists. reflexivity.
Qed.

Lemma provided_features_loop_closed (opts : list VmafOption) (obj : Memory) :
  insertion_succeeds ->
  allocation_succeeds ->
  NoDup (parameter_names (named_options opts)) ->
  0 < VMAF_FEATURE_NAME_DEFAULT_BUFFER_SIZE < SIZE_MODULUS ->
  forall features d w,
    NoDup (map key (entries_of d) ++ features) ->
    exists w',
      provided_features_loop features (Some opts) (Some obj) d w =
        (Dict_ptr
           match features with
           | [] => d
           | _ :: _ =>
               Some {| entry := (entries_of d ++
                                 map (feature_entry opts obj) features)%list |}
           end,
         w').
Proof.
  intros Hins Halloc Hnd HB.
  induction features as [|f rest IH]; intros d w Hfresh;
    cbn [provided_features_loop].
  - now exists w.
  - destruct (from_options_closed f opts obj w Hins Halloc Hnd HB) as [w1 ->].
    destruct (Hins d f (canonical_name f opts obj) w1) as [w2 Hset].
    { intros Hin. apply (NoDup_remove_2 _ _ _ Hfresh).
      apply in_or_app. now left. }
    rewrite Hset. cbn [Z.eqb negb].
    destruct (IH (Some {| entry :=
                   (entries_of d ++
                    [{| key := f; val := canonical_name f opts obj |}])%list |})
                 (free w2)) as [w' Hrest].
    { cbn [entries_of entry]. rewrite map_app, <- app_assoc. exact Hfresh. }
    exists w'. rewrite Hrest. cbn [entries_of entry map]. unfold feature_entry at 2.
    destruct rest as [|g rest'].
    + reflexivity.
    + now rewrite <- app_assoc.
Qed.

(** X15. Without an option array or without an object the batch fails at
    its first name, with [-EINVAL] in place of a dictionary and nothing
    allocated; on an empty list it returns [NULL] without an error. *)
Theorem vmaf_feature_name_dict_absent_inputs
    (features : list string) (opts : option (list VmafOption))
    (obj : option Memory) (w : World) :
  opts = None \/ obj = None ->
  vmaf_feature_name_dict_from_provided_features features opts obj w =
    match features with
    | [] => (Dict_ptr None, w)
    | _ :: _ => (Int_as_ptr (- EINVAL), vmaf_dictionary_free None w)
    end.
Proof.
  intros Habs. unfold vmaf_feature_name_dict_from_provided_features.
  destruct features as [|f rest]; cbn [provided_features_loop]; [reflexivity|].
  assert (Hnull : vmaf_feature_name_from_options (Some f) opts obj w = (None, w)).
  { unfold vmaf_feature_name_from_options.
    destruct Habs as [-> | ->]; [reflexivity | now destruct opts]. }
  now rewrite Hnull.
Qed.

(** X16. When the dictionary and the allocator do not fail, the names of
    the feature parameters are unique and the provided features are
    distinct, the batch returns the dictionary that holds, for each
    provided feature in turn, its canonical name under the feature's own
    name. *)
Theorem vmaf_feature_name_dict_maps_each_feature
    (features : list string) (opts : list VmafOption) (obj : Memory) (w : World) :
  insertion_succeeds ->
  allocation_succeeds ->
  NoDup (parameter_names (named_options opts)) ->
  NoDup features ->
  0 < VMAF_FEATURE_NAME_DEFAULT_BUFFER_SIZE < SIZE_MODULUS ->
  fst (vmaf_feature_name_dict_from_provided_features features (Some opts) (Some obj) w) =
    Dict_ptr
      match features with
      | [] => None
      | _ :: _ => Some {| entry := map (feature_entry opts obj) features |}
      end.
Proof.
  intros Hins Halloc Hnd Hfeat HB.
  unfold vmaf_feature_name_dict_from_provided_features.
  destruct (provided_features_loop_closed opts obj Hins Halloc Hnd HB
              features None w Hfeat) as [w' ->].
  reflexivity.
Qed.

End MoreOfTheBatch.

(** ** The two ways to a name with one parameter *)

Section TwoEntryPoints.
Context {E : Externals}.

(** X17. For a key of the alias table, [vmaf_feature_name] on a buffer of
    [VMAF_FEATURE_NAME_DEFAULT_BUFFER_SIZE + 1] bytes and
    [vmaf_feature_name_from_opts_dict] on the one entry that holds the
    value printed with ["%g"], for an option that carries the alias of the
    table, build the same string. *)
Theorem vmaf_feature_name_agrees_with_opts_dict
    (base k ka : string) (v : double) (buf : list ascii)
    (o e : VmafOption) (w : World) :
  key_alias k = Some ka ->
  name o = Some k ->
  alias o = Some ka ->
  feature_param o = true ->
  name e = None ->
  0 < VMAF_FEATURE_NAME_DEFAULT_BUFFER_SIZE ->
  VMAF_FEATURE_NAME_DEFAULT_BUFFER_SIZE + 1 < SIZE_MODULUS ->
  Z.of_nat (List.length buf) = VMAF_FEATURE_NAME_DEFAULT_BUFFER_SIZE + 1 ->
  let t := str_take (VMAF_FEATURE_NAME_DEFAULT_BUFFER_SIZE - 1)
             (vmaf_feature_name_alias base ++ "_" ++ ka ++ "_" ++ fmt_g v) in
  vmaf_feature_name base (Some k) v buf (VMAF_FEATURE_NAME_DEFAULT_BUFFER_SIZE + 1) =
    Some (Ret_buf,
          (list_ascii_of_string t ++
           repeat NUL (List.length buf - String.length t))%list) /\
  vmaf_feature_name_from_opts_dict base (Some [o; e])
    (Some {| entry := [ {| key := k; val := fmt_g v |} ] |}) w =
    return_copy t w.
Proof.
  intros Hk Hn Ha Hf He HB0 HB1 Hlen t. split.
  - rewrite (vmaf_feature_name_closed base k ka v buf _ Hk Hlen) by lia.
    replace (VMAF_FEATURE_NAME_DEFAULT_BUFFER_SIZE + 1 - 2)
      with (VMAF_FEATURE_NAME_DEFAULT_BUFFER_SIZE - 1) by lia.
    reflexivity.
  - rewrite from_opts_dict_general by lia.
    cbn [named_options]. rewrite Hn, He. cbn [map str_concat].
    unfold matching_suffix, display_key. cbn [fst snd entry filter key].
    rewrite Hf, Ha, (proj2 (streq_true k k) eq_refl).
    cbn [map str_concat val]. rewrite !str_app_empty_r. reflexivity.
Qed.

End TwoEntryPoints.

(** ** Witnesses *)

(** Witness of X7: a dictionary that repeats a key. *)
Lemma vmaf_feature_name_from_opts_dict_composes_witness :
  @vmaf_feature_name_from_opts_dict heap_externals "adm" (Some sample_opts)
     (Some dict_repeated_key_12) heap0 =
  @return_copy heap_externals
    (str_take (@VMAF_FEATURE_NAME_DEFAULT_BUFFER_SIZE heap_externals - 1)
       (@vmaf_feature_name_alias heap_externals "adm" ++
        str_concat (map (@matching_suffix heap_externals (entry dict_repeated_key_12))
                      (named_options sample_opts)))) heap0.
Proof.
  assert (HB : 0 < @VMAF_FEATURE_NAME_DEFAULT_BUFFER_SIZE heap_externals < SIZE_MODULUS)
    by (vm_compute; split; reflexivity).
  exact (proj1 (@vmaf_feature_name_from_opts_dict_composes heap_externals "adm"
                  sample_opts dict_repeated_key_12 heap0 HB)).
Defined.

(** Witness of X8: the name of the gain limit at [1.5]. *)
Lemma vmaf_feature_name_from_opts_dict_length_witness :
  strlen "adm_egl_1.5" <= @VMAF_FEATURE_NAME_DEFAULT_BUFFER_SIZE heap_externals - 1.
Proof.
  assert (HB : 0 < @VMAF_FEATURE_NAME_DEFAULT_BUFFER_SIZE heap_externals < SIZE_MODULUS)
    by (vm_compute; split; reflexivity).
  assert (Hr : fst (@vmaf_feature_name_from_opts_dict heap_externals "adm"
                      (Some sample_opts) dict_egl heap0) = Some "adm_egl_1.5")
    by (vm_compute; reflexivity).
  exact (proj1 (@vmaf_feature_name_from_opts_dict_length heap_externals "adm"
                  (Some sample_opts) dict_egl heap0 "adm_egl_1.5" HB Hr)).
Defined.

(** Witness of X9: a dictionary whose only key names no option. *)
Lemma vmaf_feature_name_from_opts_dict_no_match_witness :
  @vmaf_feature_name_from_opts_dict heap_externals "adm" (Some sample_opts)
     (Some dict_unrelated) heap0 =
  @return_copy heap_externals
    (str_take (@VMAF_FEATURE_NAME_DEFAULT_BUFFER_SIZE heap_externals - 1)
       (@vmaf_feature_name_alias heap_externals "adm")) heap0.
Proof.
  assert (HB : 0 < @VMAF_FEATURE_NAME_DEFAULT_BUFFER_SIZE heap_externals < SIZE_MODULUS)
    by (vm_compute; split; reflexivity).
  assert (Hno : forall o, In o (named_options sample_opts) ->
            @feature_param heap_externals (snd o) = true ->
            dict_lookup (fst o) (entry dict_unrelated) = None).
  { intros o Hin _. cbn in Hin. destruct Hin as [<- | [<- | []]]; reflexivity. }
  exact (@vmaf_feature_name_from_opts_dict_no_match heap_externals "adm"
           sample_opts dict_unrelated heap0 HB Hno).
Defined.

(** Witness of X10: an option after the end of the array. *)
Lemma options_after_the_end_are_ignored_witness :
  @vmaf_feature_name_from_options heap_externals (Some "adm")
     (Some ([opt_egl] ++ opt_end :: [opt_nvd])%list)
     (Some (sample_obj double_1_5 7)) heap0 =
  @vmaf_feature_name_from_options heap_externals (Some "adm")
     (Some ([opt_egl] ++ opt_end :: [])%list)
     (Some (sample_obj double_1_5 7)) heap0.
Proof.
  exact (proj2 (@options_after_the_end_are_ignored heap_externals "adm"
                  [opt_egl] opt_end [opt_nvd] [] None
                  (Some (sample_obj double_1_5 7)) heap0 eq_refl)).
Defined.

(** Witness of X11: a gain limit that is a NaN. *)
Lemma option_is_default_nan_and_zero_witness :
  option_is_default (Some opt_egl) (Some (mem_at (sample_obj double_nan 3) 0)) = 0.
Proof.
  assert (Hnan : double_is_nan (load_double (mem_at (sample_obj double_nan 3) 0)) = true)
    by (vm_compute; reflexivity).
  exact (proj1 (option_is_default_nan_and_zero opt_egl
                  (mem_at (sample_obj double_nan 3) 0) eq_refl)
               (or_intror Hnan)).
Defined.

(** Witness of X13: the name of the gain limit at [1.5]. *)
Lemma vmaf_feature_name_from_options_length_witness :
  strlen "adm_egl_1.5" <= @VMAF_FEATURE_NAME_DEFAULT_BUFFER_SIZE heap_externals - 1.
Proof.
  assert (HB : 0 < @VMAF_FEATURE_NAME_DEFAULT_BUFFER_SIZE heap_externals < SIZE_MODULUS)
    by (vm_compute; split; reflexivity).
  assert (Hr : fst (@vmaf_feature_name_from_options heap_externals (Some "adm")
                      (Some sample_opts) (Some (sample_obj double_1_5 3)) heap0)
               = Some "adm_egl_1.5")
    by (vm_compute; reflexivity).
  exact (@vmaf_feature_name_from_options_length heap_externals (Some "adm")
           (Some sample_opts) (Some (sample_obj double_1_5 3)) heap0
           "adm_egl_1.5" HB Hr).
Defined.

(** Witness of X14: two objects that differ in a byte no option covers. *)
Lemma vmaf_feature_name_from_options_reads_fields_witness :
  @vmaf_feature_name_from_options heap_externals (Some "adm") (Some sample_opts)
     (Some (sample_obj double_1_5 7)) heap0 =
  @vmaf_feature_name_from_options heap_externals (Some "adm") (Some sample_opts)
     (Some (sample_obj_padded double_1_5 7)) heap0.
Proof.
  assert (Hsame : @same_fields heap_externals sample_opts
                    (sample_obj double_1_5 7) (sample_obj_padded double_1_5 7)).
  { intros o Hin _ k Hk. cbn in Hin. destruct Hin as [<- | [<- | []]];
      cbn [snd type opt_egl opt_nvd field_width] in Hk.
    - assert (Hc : k = 0 \/ k = 1 \/ k = 2 \/ k = 3 \/
                   k = 4 \/ k = 5 \/ k = 6 \/ k = 7) by lia.
      destruct Hc as [-> | [-> | [-> | [-> | [-> | [-> | [-> | ->]]]]]]];
        vm_compute; reflexivity.
    - assert (Hc : k = 0 \/ k = 1 \/ k = 2 \/ k = 3) by lia.
      destruct Hc as [-> | [-> | [-> | ->]]]; vm_compute; reflexivity. }
  exact (@vmaf_feature_name_from_options_reads_fields heap_externals (Some "adm")
           sample_opts (sample_obj double_1_5 7) (sample_obj_padded double_1_5 7)
           heap0 Hsame).
Defined.

(** Witness of X15: no option array. *)
Lemma vmaf_feature_name_dict_absent_inputs_witness :
  @vmaf_feature_name_dict_from_provided_features heap_externals ["adm"] None
     (Some (sample_obj double_1_5 3)) heap0 =
  (Int_as_ptr (- EINVAL), @vmaf_dictionary_free heap_externals None heap0).
Proof.
  exact (@vmaf_feature_name_dict_absent_inputs heap_externals ["adm"] None
           (Some (sample_obj double_1_5 3)) heap0 (or_introl eq_refl)).
Defined.

(** Witness of X16: two features of an object whose gain limit is [1.5]. *)
Lemma vmaf_feature_name_dict_maps_each_feature_witness :
  fst (@vmaf_feature_name_dict_from_provided_features reliable_externals
         ["adm"; "motion"] (Some sample_opts) (Some (sample_obj double_1_5 3)) tt) =
  Dict_ptr (Some {| entry := [ {| key := "adm"; val := "adm_egl_1.5" |};
                               {| key := "motion"; val := "motion_egl_1.5" |} ] |}).
Proof.
  assert (Hnd : NoDup (@parameter_names reliable_externals (named_options sample_opts))).
  { repeat constructor; simpl; intuition discriminate. }
  assert (Hfeat : NoDup ["adm"; "motion"]).
  { repeat constructor; simpl; intuition discriminate. }
  assert (HB : 0 < @VMAF_FEATURE_NAME_DEFAULT_BUFFER_SIZE reliable_externals < SIZE_MODULUS)
    by (vm_compute; split; reflexivity).
  rewrite (@vmaf_feature_name_dict_maps_each_feature reliable_externals
             ["adm"; "motion"] sample_opts (sample_obj double_1_5 3) tt
             reliable_insertion_succeeds reliable_allocation_succeeds
             Hnd Hfeat HB).
  vm_compute. reflexivity.
Defined.

(** Witness of X17: the gain limit at [1.5], in a buffer of 257 bytes. *)
Lemma vmaf_feature_name_agrees_with_opts_dict_witness :
  @vmaf_feature_name_from_opts_dict heap_externals "adm" (Some [opt_egl; opt_end])
     (Some {| entry := [ {| key := "adm_enhn_gain_limit"; val := fmt_g double_1_5 |} ] |})
     heap0 =
  @return_copy heap_externals
    (str_take (@VMAF_FEATURE_NAME_DEFAULT_BUFFER_SIZE heap_externals - 1)
       (@vmaf_feature_name_alias heap_externals "adm" ++
        "_" ++ "egl" ++ "_" ++ fmt_g double_1_5)) heap0.
Proof.
  assert (HB0 : 0 < @VMAF_FEATURE_NAME_DEFAULT_BUFFER_SIZE heap_externals)
    by reflexivity.
  assert (HB1 : @VMAF_FEATURE_NAME_DEFAULT_BUFFER_SIZE heap_externals + 1 < SIZE_MODULUS)
    by reflexivity.
  assert (Hlen : Z.of_nat (List.length (repeat "x"%char 257)) =
                 @VMAF_FEATURE_NAME_DEFAULT_BUFFER_SIZE heap_externals + 1)
    by (vm_compute; reflexivity).
  exact (proj2 (@vmaf_feature_name_agrees_with_opts_dict heap_externals "adm"
                  "adm_enhn_gain_limit" "egl" double_1_5 (repeat "x"%char 257)
                  opt_egl opt_end heap0
                  eq_refl eq_refl eq_refl eq_refl eq_refl HB0 HB1 Hlen)).
Defined.
